(** * AgroStock Lite: the inventory manager and its two stores

    A shallow embedding of [estoque.py] (class [Estoque]), together with the
    parts of [storage.py], [oracle_gateway.py] and [utils.py] that it calls.

    Conventions of the model.
    - A supply record ("insumo") is a Python [dict]; it is a finite map from
      key names to values.  The working set [self.insumos] is a Python list.
    - A Python number ([int] or [float]) is a finite value, an infinity or
      NaN.  A finite value is a rational: every [int] is one, and so is
      every [float], whose values are those of the binary64 format.  The
      arithmetic of floats and the conversion to [float] round to the
      nearest value of the format, the even one of two that are as near,
      and overflow as Python has it.  Infinities and NaN behave as IEEE 754
      has them; the sign of zero is outside the model.
    - An uncaught Python exception ends the call; it is the [Levanta]
      outcome.
    - The remote data base may fail at every interaction; the faults of the
      coming interactions are the schedule [falhas] of the state.
    - The local file is absent, a JSON list of records, a text that is no
      JSON document, or a file that cannot be opened or decoded.  A write
      fails when a value has no JSON form; the other faults of the file
      system during a write, and a file that holds another JSON value than
      a list of objects, are outside the model. *)

From Stdlib Require Import QArith Qcanon Qround Qpower Lqa.
From stdpp Require Import numbers gmap strings list fin_maps.

Local Open Scope Qc_scope.

(** ** Numbers *)

(** A Python number: a finite value, an infinity with its sign, or NaN. *)
Inductive flutuante :=
| Fin (x : Qc)
| Inf (positivo : bool)
| NaN.

Global Instance flutuante_eq_dec : EqDecision flutuante.
Proof. solve_decision. Defined.

Definition f_oposto (x : flutuante) : flutuante :=
  match x with
  | Fin a => Fin (- a)
  | Inf s => Inf (negb s)
  | NaN => NaN
  end.

(** *** The binary64 format

    A positive rational [q] lies between two powers of two,
    [2^e <= q < 2^(e+1)]; the values of the format around it are the
    multiples of [2^(e-52)] (53 binary digits), and those of [2^-1074]
    below the least normal value [2^-1022].  Rounding takes [q] to the
    nearest of them; a result of [2^1024] or more is an overflow. *)

(** [e] with [2^e <= q < 2^(e+1)], for a positive [q]. *)
Definition log2_chao (q : Q) : Z :=
  let e := (Z.log2 (Qnum q) - Z.log2 (Z.pos (Qden q)))%Z in
  if Qle_bool (Qpower 2 e) q then e else (e - 1)%Z.

(** The nearest integer, the even one of two that are as near. *)
Definition inteiro_proximo (m : Q) : Z :=
  let f := Qfloor m in
  match (m - inject_Z f ?= 1 # 2)%Q with
  | Lt => f
  | Gt => (f + 1)%Z
  | Eq => if Z.even f then f else (f + 1)%Z
  end.

(** The exponent of the step between the values of the format around [q]. *)
Definition expoente_ulp (q : Q) : Z := Z.max (log2_chao q - 52) (-1074).

Definition mais_proximo (q : Q) : Q :=
  let u := Qpower 2 (expoente_ulp q) in
  (inject_Z (inteiro_proximo (q / u)) * u)%Q.

Definition arredondar_positivo (q : Q) : flutuante :=
  let v := mais_proximo q in
  if Qle_bool (Qpower 2 1024) v then Inf true else Fin (Q2Qc v).

(** The float nearest to a rational; an infinity when it overflows. *)
Definition arredondar (x : Qc) : flutuante :=
  match 0 ?= x with
  | Eq => Fin 0
  | Lt => arredondar_positivo x
  | Gt => f_oposto (arredondar_positivo (- x))
  end.

(** [x + y] and [x - y] on floats. *)
Definition f_soma (x y : flutuante) : flutuante :=
  match x, y with
  | Fin a, Fin b => arredondar (a + b)
  | Fin _, Inf s => Inf s
  | Inf s, Fin _ => Inf s
  | Inf s, Inf s' => if Bool.eqb s s' then Inf s else NaN
  | _, _ => NaN
  end.

Definition f_subtrai (x y : flutuante) : flutuante := f_soma x (f_oposto y).

(** [x < y], [x <= y] and [x == y]: false as soon as one side is NaN. *)
Definition f_menor (x y : flutuante) : bool :=
  match x, y with
  | Fin a, Fin b => bool_decide (a < b)
  | Fin _, Inf s => s
  | Inf s, Fin _ => negb s
  | Inf s, Inf s' => negb s && s'
  | _, _ => false
  end.

Definition f_menor_igual (x y : flutuante) : bool :=
  match x, y with
  | Fin a, Fin b => bool_decide (a ≤ b)
  | Fin _, Inf s => s
  | Inf s, Fin _ => negb s
  | Inf s, Inf s' => negb s || s'
  | _, _ => false
  end.

Definition f_igual (x y : flutuante) : bool :=
  match x, y with
  | NaN, _ | _, NaN => false
  | _, _ => bool_decide (x = y)
  end.

Definition zero : flutuante := Fin 0.

(** ** Values and records *)

(** The values held by a record: [None], a number, a text, or a
    [datetime], the point in time that the data base gives for a time
    stamp. *)
Inductive valor :=
| VNone
| VNum (x : flutuante)
| VStr (s : string)
| VData (t : Z).

Global Instance valor_eq_dec : EqDecision valor.
Proof. solve_decision. Defined.

Abbreviation insumo := (gmap string valor).

Definition num (z : Z) : valor := VNum (Fin (Qc_of_Z z)).

(** [a == b] on values. *)
Definition py_eq (a b : valor) : bool :=
  match a, b with
  | VNum x, VNum y => f_igual x y
  | _, _ => bool_decide (a = b)
  end.

(** ** Outcomes: a result or an uncaught exception *)

Inductive excecao :=
| KeyError
| TypeError
| OverflowError
| UnicodeDecodeError
| OSError.

Inductive resultado (A : Type) :=
| Ret (a : A)
| Levanta (x : excecao).
Arguments Ret {A} a.
Arguments Levanta {A} x.

Definition tentar {A B} (m : resultado A) (k : A → resultado B) : resultado B :=
  match m with
  | Ret a => k a
  | Levanta x => Levanta x
  end.

Notation "'tenta' x ← m ; k" := (tentar m (λ x, k))
  (at level 10, x name, m at level 100, k at level 200).

(** [d[k]]: subscription of a dict, [KeyError] when the key is absent. *)
Definition item (d : insumo) (k : string) : resultado valor :=
  match d !! k with
  | Some v => Ret v
  | None => Levanta KeyError
  end.

(** [d.get(k)]: [None] when the key is absent. *)
Definition get (d : insumo) (k : string) : valor :=
  default VNone (d !! k).

(** Truth value of an optional dict: [None] and the empty dict are false. *)
Definition verdadeiro (o : option insumo) : bool :=
  match o with
  | Some d => negb (bool_decide (d = ∅))
  | None => false
  end.

(** [a <= b] on values: numbers by order, texts lexicographically, points
    in time by order; anything else is a [TypeError]. *)
Definition py_le (a b : valor) : resultado bool :=
  match a, b with
  | VNum x, VNum y => Ret (f_menor_igual x y)
  | VStr s, VStr t => Ret (String.leb s t)
  | VData s, VData t => Ret (bool_decide (s ≤ t)%Z)
  | _, _ => Levanta TypeError
  end.

(** Python's [float] on a number: the nearest float; an [int] beyond the
    range of the format is an [OverflowError]. *)
Definition para_float (x : flutuante) : resultado flutuante :=
  match x with
  | Fin a =>
      match arredondar a with
      | Inf _ => Levanta OverflowError
      | y => Ret y
      end
  | _ => Ret x
  end.

(** [a < x] for a value [a] and a float [x]. *)
Definition py_lt_float (a : valor) (x : flutuante) : resultado bool :=
  match a with
  | VNum y => Ret (f_menor y x)
  | _ => Levanta TypeError
  end.

(** [a + x] and [a - x] for a value [a] and a float [x]: a number [a] is
    converted to a float first. *)
Definition py_add_float (a : valor) (x : flutuante) : resultado valor :=
  match a with
  | VNum y => tenta y' ← para_float y; Ret (VNum (f_soma y' x))
  | _ => Levanta TypeError
  end.

Definition py_sub_float (a : valor) (x : flutuante) : resultado valor :=
  match a with
  | VNum y => tenta y' ← para_float y; Ret (VNum (f_subtrai y' x))
  | _ => Levanta TypeError
  end.

(** ** Messages printed on the terminal ([utils.print_erro] and friends,
    and the two [print] of [storage.py]) *)

Inductive erro :=
| CodigoJaExiste          (* "Código de insumo já existe." *)
| NaoEncontrado           (* "Insumo não encontrado." *)
| QuantidadeInvalida      (* "Quantidade inválida." *)
| QuantidadeInsuficiente. (* "Quantidade insuficiente em estoque." *)

Inductive mensagem :=
| Erro (m : erro)
| SucessoAdicionado
| SucessoAtualizado
| SucessoRemovido
| SucessoEntrada (quantidade : flutuante) (unidade : valor)
| SucessoSaida (quantidade : flutuante) (unidade : valor)
| AlertaNivelMinimo (nome : valor)
| ErroAoLer               (* "Erro ao ler o arquivo ... Criando novo arquivo." *)
| ErroAoSalvar.           (* "Erro ao salvar no arquivo ...: ..." *)

(** ** The local file *)

(** What the path of the JSON file holds. *)
Inductive ficheiro :=
| Ausente                     (* no file: [os.path.exists] is false *)
| Documento (l : list insumo) (* a JSON list of records *)
| Corrompido                  (* a text that [json.load] rejects *)
| Ilegivel (x : excecao).     (* [open] or the decoding raises [x] *)

(** ** The state: the manager, its two stores and the terminal *)

Record Mundo := mkMundo {
  insumos : list insumo;                 (* self.insumos *)
  arquivo : ficheiro;                    (* the JSON file of self.storage *)
  connection : bool;                     (* self.oracle.connection is set *)
  tabela : gmap Qc insumo;               (* the rows of INSUMOS, by CODIGO *)
  falhas : list bool;                    (* faults of the coming interactions *)
  terminal : list mensagem               (* what has been printed *)
}.

Definition com_insumos (l : list insumo) (e : Mundo) : Mundo :=
  mkMundo l (arquivo e) (connection e) (tabela e) (falhas e) (terminal e).
Definition com_arquivo (a : ficheiro) (e : Mundo) : Mundo :=
  mkMundo (insumos e) a (connection e) (tabela e) (falhas e) (terminal e).
Definition com_connection (c : bool) (e : Mundo) : Mundo :=
  mkMundo (insumos e) (arquivo e) c (tabela e) (falhas e) (terminal e).
Definition com_tabela (t : gmap Qc insumo) (e : Mundo) : Mundo :=
  mkMundo (insumos e) (arquivo e) (connection e) t (falhas e) (terminal e).
Definition com_falhas (f : list bool) (e : Mundo) : Mundo :=
  mkMundo (insumos e) (arquivo e) (connection e) (tabela e) f (terminal e).
Definition com_terminal (t : list mensagem) (e : Mundo) : Mundo :=
  mkMundo (insumos e) (arquivo e) (connection e) (tabela e) (falhas e) t.

(** The monad of the methods: state passing, with uncaught exceptions. *)
Definition M (A : Type) : Type := Mundo → resultado (A * Mundo).

Definition retorna {A} (a : A) : M A := λ e, Ret (a, e).

Definition ligar {A B} (m : M A) (k : A → M B) : M B := λ e,
  match m e with
  | Ret (a, e') => k a e'
  | Levanta x => Levanta x
  end.

Notation "'faz' x ← m ; k" := (ligar m (λ x, k))
  (at level 10, x name, m at level 100, k at level 200).
Notation "m ;; k" := (ligar m (λ _, k))
  (at level 100, k at level 200, right associativity).

Definition puro {A} (r : resultado A) : M A := λ e,
  match r with
  | Ret a => Ret (a, e)
  | Levanta x => Levanta x
  end.

Definition ler {A} (f : Mundo → A) : M A := λ e, Ret (f e, e).
Definition mudar (f : Mundo → Mundo) : M unit := λ e, Ret (tt, f e).

Definition imprimir (m : mensagem) : M unit :=
  mudar (λ e, com_terminal (terminal e ++ [m]) e).

(** [for x in l: corpo(x)] *)
Fixpoint para_cada {A} (corpo : A → M unit) (l : list A) : M unit :=
  match l with
  | [] => retorna tt
  | x :: l' => corpo x ;; para_cada corpo l'
  end.

(** ** storage.py: the local JSON file *)

Module Storage.

(** The values that [json.dump] can write: all but the points in time, on
    which it raises a [TypeError]. *)
Definition serializavel (v : valor) : bool :=
  match v with
  | VData _ => false
  | _ => true
  end.

Definition serializaveis (l : list insumo) : bool :=
  forallb (λ i : insumo,
             bool_decide (map_Forall (λ _ v, serializavel v) i)) l.

(** [Storage.salvar_insumos]: [open] empties the file and [json.dump]
    writes the list.  When a value cannot be written, the exception is
    caught with the file left cut short, a message is printed and the
    result is [False]. *)
Definition salvar_insumos (l : list insumo) : M bool :=
  if serializaveis l then
    mudar (com_arquivo (Documento l)) ;; retorna true
  else
    mudar (com_arquivo Corrompido) ;;
    imprimir ErroAoSalvar ;;
    retorna false.

(** [Storage.carregar_insumos]: the list that the file holds, the empty
    list when there is no file; a [json.JSONDecodeError] is caught, with a
    message, and gives the empty list; any other exception of [open] and
    [json.load] is not caught. *)
Definition carregar_insumos : M (list insumo) :=
  faz a ← ler arquivo;
  match a with
  | Ausente => retorna []
  | Documento l => retorna l
  | Corrompido => imprimir ErroAoLer ;; retorna []
  | Ilegivel x => puro (Levanta x)
  end.

End Storage.

(** ** oracle_gateway.py: the remote data base *)

Module OracleGateway.

(** One interaction with the data base server: [true] when it ends in a
    [cx_Oracle.DatabaseError].  An exhausted schedule means no more faults. *)
Definition interagir : M bool := λ e,
  match falhas e with
  | [] => Ret (false, e)
  | f :: fs => Ret (f, com_falhas fs e)
  end.

(** [OracleGateway.conectar]: the ping and the connection attempt are one
    interaction; a fault leaves the connection as it was. *)
Definition conectar : M bool :=
  faz f ← interagir;
  if f then retorna false
  else mudar (com_connection true) ;; retorna true.

(** [OracleGateway.desconectar]: the connection is dropped whether closing
    it fails or not. *)
Definition desconectar : M unit :=
  mudar (com_connection false).

(** [OracleGateway.executar_query]: [None] on any fault. *)
Definition executar_query (sql : gmap Qc insumo → option (list insumo))
    : M (option (list insumo)) :=
  faz ok ← conectar;
  if negb ok then retorna None
  else
    faz f ← interagir;
    if f then retorna None
    else ler (λ e, sql (tabela e)).

(** [OracleGateway.executar_dml]: commit on success, rollback on a fault. *)
Definition executar_dml (sql : gmap Qc insumo → option (gmap Qc insumo))
    : M bool :=
  faz ok ← conectar;
  if negb ok then retorna false
  else
    faz f ← interagir;
    if f then retorna false
    else
      faz t ← ler tabela;
      match sql t with
      | Some t' => mudar (com_tabela t') ;; retorna true
      | None => retorna false
      end.

(** Modelled from the spec: the table INSUMOS and its three statements; the
    schema is not among the sources.  The table is keyed by CODIGO, a number;
    a row holds the columns NOME, QUANTIDADE, UNIDADE, PRECO_UNIT and
    NIVEL_MIN (the two time stamps are left out).  A statement bound to a
    code that is not a finite number fails, and so does the insertion of a
    code that is already there. *)
Definition sql_select (codigo : valor) (t : gmap Qc insumo)
    : option (list insumo) :=
  match codigo with
  | VNum (Fin c) =>
      Some match t !! c with
           | Some linha => [<["codigo" := VNum (Fin c)]> linha]
           | None => []
           end
  | _ => None
  end.

Definition sql_insert (params : insumo) (t : gmap Qc insumo)
    : option (gmap Qc insumo) :=
  match get params "codigo" with
  | VNum (Fin c) =>
      match t !! c with
      | Some _ => None
      | None => Some (<[c := delete "codigo" params]> t)
      end
  | _ => None
  end.

Definition sql_update (params : insumo) (t : gmap Qc insumo)
    : option (gmap Qc insumo) :=
  match get params "codigo" with
  | VNum (Fin c) => Some (alter (λ linha, delete "codigo" params ∪ linha) c t)
  | _ => None
  end.

(** [OracleGateway.buscar_insumo] *)
Definition buscar_insumo (codigo : valor) : M (option insumo) :=
  faz resultados ← executar_query (sql_select codigo);
  retorna match resultados with
          | Some (linha :: _) => Some linha
          | _ => None
          end.

(** [OracleGateway.inserir_insumo] *)
Definition inserir_insumo (i : insumo) : M bool :=
  executar_dml (sql_insert
    (<["codigo" := get i "codigo"]> (<["nome" := get i "nome"]>
    (<["quantidade" := get i "quantidade"]> (<["unidade" := get i "unidade"]>
    (<["preco_unit" := get i "preco_unit"]>
    (<["nivel_min" := get i "nivel_min"]> ∅))))))).

Definition campos_permitidos : list string :=
  ["nome"; "quantidade"; "unidade"; "preco_unit"; "nivel_min"].

(** [OracleGateway.atualizar_insumo]: only the fields that are present are
    sent; without any of them nothing is executed. *)
Definition atualizar_insumo (codigo : valor) (i : insumo) : M bool :=
  let campos_update :=
    filter (λ kv : string * valor, kv.1 ∈ campos_permitidos) i in
  if bool_decide (campos_update = ∅) then retorna false
  else executar_dml (sql_update (<["codigo" := codigo]> campos_update)).

(** [OracleGateway.listar_insumos]: [resultados if resultados else []].
    What the statement [SELECT ... FROM INSUMOS ORDER BY NOME] yields on a
    table is decided by the server; it is the argument [sql_listar]. *)
Definition listar_insumos
    (sql_listar : gmap Qc insumo → option (list insumo)) : M (list insumo) :=
  faz resultados ← executar_query sql_listar;
  retorna match resultados with
          | Some (linha :: linhas) => linha :: linhas
          | _ => []
          end.

End OracleGateway.

(** ** utils.py *)

Section Utils.

(** The number that a text denotes for Python's built-in [float] ([None]
    for a [ValueError]); the reading of numerals is not part of the
    repository. *)
Variable float_de_texto : string → option flutuante.

(** The float of a denoted number: the nearest one, an infinity beyond the
    range. *)
Definition no_formato (x : flutuante) : flutuante :=
  match x with
  | Fin a => arredondar a
  | _ => x
  end.

(** [utils.validar_float]: only [ValueError] is caught. *)
Definition validar_float (v : valor) : resultado (option flutuante) :=
  match v with
  | VNum x => tenta y ← para_float x; Ret (Some y)
  | VStr s => Ret (no_formato <$> float_de_texto s)
  | VNone => Levanta TypeError
  | VData _ => Levanta TypeError
  end.

End Utils.

(** ** estoque.py: the inventory manager *)

Module Estoque.

(** The body of the loop of [_sincronizar]: insert when the look-up finds
    nothing, update otherwise. *)
Definition sincronizar_insumo (i : insumo) : M unit :=
  faz c ← puro (item i "codigo");
  faz achado ← OracleGateway.buscar_insumo c;
  if negb (verdadeiro achado) then
    OracleGateway.inserir_insumo i ;; retorna tt
  else
    faz c' ← puro (item i "codigo");
    OracleGateway.atualizar_insumo c' i ;; retorna tt.

(** [Estoque._sincronizar] *)
Definition _sincronizar : M unit :=
  faz ok ← OracleGateway.conectar;
  (if ok then
     faz l ← ler insumos;
     para_cada sincronizar_insumo l ;;
     OracleGateway.desconectar
   else retorna tt) ;;
  faz l ← ler insumos;
  Storage.salvar_insumos l ;; retorna tt.



(** [Estoque.listar_insumos] *)
Definition listar_insumos : M (list insumo) := ler insumos.

(** The loop [for i, insumo in enumerate(l): if insumo['codigo'] == codigo]:
    the position and the dict of the first match. *)
Fixpoint procurar (codigo : valor) (l : list insumo)
    : resultado (option (nat * insumo)) :=
  match l with
  | [] => Ret None
  | i :: l' =>
      tenta c ← item i "codigo";
      if py_eq c codigo then Ret (Some (0%nat, i))
      else tenta r ← procurar codigo l'; Ret (prod_map S id <$> r)
  end.

(** [Estoque.buscar_insumo]: the dict found is a reference into the working
    set; the model returns its position along with it. *)
Definition buscar_insumo (codigo : valor) : M (option (nat * insumo)) :=
  faz l ← ler insumos;
  puro (procurar codigo l).

(** [Estoque.adicionar_insumo] *)
Definition adicionar_insumo (i : insumo) : M bool :=
  faz c ← puro (item i "codigo");
  faz achado ← buscar_insumo c;
  if verdadeiro (snd <$> achado) then
    imprimir (Erro CodigoJaExiste) ;;
    retorna false
  else
    mudar (λ e, com_insumos (insumos e ++ [i]) e) ;;
    _sincronizar ;;
    imprimir SucessoAdicionado ;;
    retorna true.

(** [Estoque.atualizar_insumo]: [{**insumo, **novos_dados}] is the union
    of the two dicts in which [novos_dados] wins. *)
Definition atualizar_insumo (codigo : valor) (novos_dados : insumo) : M bool :=
  faz l ← ler insumos;
  faz achado ← puro (procurar codigo l);
  match achado with
  | Some (n, i) =>
      mudar (λ e, com_insumos (<[n := novos_dados ∪ i]> (insumos e)) e) ;;
      _sincronizar ;;
      imprimir SucessoAtualizado ;;
      retorna true
  | None =>
      imprimir (Erro NaoEncontrado) ;;
      retorna false
  end.

(** [Estoque.remover_insumo] *)
Definition remover_insumo (codigo : valor) : M bool :=
  faz l ← ler insumos;
  faz achado ← puro (procurar codigo l);
  match achado with
  | Some (n, _) =>
      mudar (λ e, com_insumos (delete n (insumos e)) e) ;;
      _sincronizar ;;
      imprimir SucessoRemovido ;;
      retorna true
  | None =>
      imprimir (Erro NaoEncontrado) ;;
      retorna false
  end.

(** [Estoque.verificar_alertas]: the comprehension tests a record, then
    builds its five-key view. *)
Fixpoint alertas (l : list insumo) : resultado (list insumo) :=
  match l with
  | [] => Ret []
  | i :: l' =>
      tenta q ← item i "quantidade";
      tenta m ← item i "nivel_min";
      tenta b ← py_le q m;
      if b then
        tenta codigo ← item i "codigo";
        tenta nome ← item i "nome";
        tenta quantidade ← item i "quantidade";
        tenta unidade ← item i "unidade";
        tenta nivel_min ← item i "nivel_min";
        tenta resto ← alertas l';
        Ret ((<["codigo" := codigo]> (<["nome" := nome]>
             (<["quantidade" := quantidade]> (<["unidade" := unidade]>
             (<["nivel_min" := nivel_min]> ∅))))) :: resto)
      else alertas l'
  end.

Definition verificar_alertas : M (list insumo) :=
  faz l ← ler insumos;
  puro (alertas l).

Section Transacoes.

Variable float_de_texto : string → option flutuante.

(** [Estoque.registrar_entrada] *)
Definition registrar_entrada (codigo quantidade : valor) : M bool :=
  faz achado ← buscar_insumo codigo;
  match achado with
  | Some (n, i) =>
      if negb (verdadeiro (Some i)) then
        imprimir (Erro NaoEncontrado) ;; retorna false
      else
        faz quantidade ← puro (validar_float float_de_texto quantidade);
        match quantidade with
        | Some x =>
            if f_menor_igual x zero then
              imprimir (Erro QuantidadeInvalida) ;; retorna false
            else
              faz q ← puro (item i "quantidade");
              faz q' ← puro (py_add_float q x);
              let i' := <["quantidade" := q']> i in
              mudar (λ e, com_insumos (<[n := i']> (insumos e)) e) ;;
              _sincronizar ;;
              faz unidade ← puro (item i' "unidade");
              imprimir (SucessoEntrada x unidade) ;;
              retorna true
        | None =>
            imprimir (Erro QuantidadeInvalida) ;; retorna false
        end
  | None =>
      imprimir (Erro NaoEncontrado) ;; retorna false
  end.

(** [Estoque.registrar_saida] *)
Definition registrar_saida (codigo quantidade : valor) : M bool :=
  faz achado ← buscar_insumo codigo;
  match achado with
  | Some (n, i) =>
      if negb (verdadeiro (Some i)) then
        imprimir (Erro NaoEncontrado) ;; retorna false
      else
        faz quantidade ← puro (validar_float float_de_texto quantidade);
        match quantidade with
        | Some x =>
            if f_menor_igual x zero then
              imprimir (Erro QuantidadeInvalida) ;; retorna false
            else
              faz q ← puro (item i "quantidade");
              faz falta ← puro (py_lt_float q x);
              if falta then
                imprimir (Erro QuantidadeInsuficiente) ;; retorna false
              else
                faz q' ← puro (py_sub_float q x);
                let i' := <["quantidade" := q']> i in
                mudar (λ e, com_insumos (<[n := i']> (insumos e)) e) ;;
                _sincronizar ;;
                faz q2 ← puro (item i' "quantidade");
                faz m ← puro (item i' "nivel_min");
                faz baixo ← puro (py_le q2 m);
                (if baixo then
                   faz nome ← puro (item i' "nome");
                   imprimir (AlertaNivelMinimo nome)
                 else retorna tt) ;;
                faz unidade ← puro (item i' "unidade");
                imprimir (SucessoSaida x unidade) ;;
                retorna true
        | None =>
            imprimir (Erro QuantidadeInvalida) ;; retorna false
        end
  | None =>
      imprimir (Erro NaoEncontrado) ;; retorna false
  end.

End Transacoes.

End Estoque.

(** ** storage.py: the methods of [Storage] that work on one record

    Each of them loads the whole list, changes it and writes it back.  The
    loop over the list that looks for a code is the loop of the manager. *)

Module Storage_registros.

(** [Storage.adicionar_insumo] *)
Definition adicionar_insumo (i : insumo) : M bool :=
  faz l ← Storage.carregar_insumos;
  Storage.salvar_insumos (l ++ [i]).

(** [Storage.atualizar_insumo] *)
Definition atualizar_insumo (codigo : valor) (novos_dados : insumo) : M bool :=
  faz l ← Storage.carregar_insumos;
  faz achado ← puro (Estoque.procurar codigo l);
  match achado with
  | Some (n, i) => Storage.salvar_insumos (<[n := novos_dados ∪ i]> l)
  | None => retorna false
  end.

(** The comprehension [[i for i in insumos if i['codigo'] != codigo]]. *)
Fixpoint outros (codigo : valor) (l : list insumo) : resultado (list insumo) :=
  match l with
  | [] => Ret []
  | i :: l' =>
      tenta c ← item i "codigo";
      tenta resto ← outros codigo l';
      Ret (if py_eq c codigo then resto else i :: resto)
  end.

(** [Storage.remover_insumo] *)
Definition remover_insumo (codigo : valor) : M bool :=
  faz l ← Storage.carregar_insumos;
  faz l' ← puro (outros codigo l);
  Storage.salvar_insumos l'.

(** [Storage.buscar_insumo] *)
Definition buscar_insumo (codigo : valor) : M (option insumo) :=
  faz l ← Storage.carregar_insumos;
  faz achado ← puro (Estoque.procurar codigo l);
  retorna (snd <$> achado).

End Storage_registros.

(** ** utils.py: the table

    A text is the list of its characters, each one a code point.  A row is
    a dict of which only the values are read, in the order of the dict: it
    is the list of its items.  The headers are texts. *)

Module Tabela.

Abbreviation texto := (list N).
Abbreviation registro := (list (string * valor)).

Definition literal (s : string) : texto :=
  Ascii.N_of_ascii <$> String.list_ascii_of_string s.

Definition mais : N := 43.        (* + *)
Definition menos : N := 45.       (* - *)
Definition barra : N := 124.      (* | *)
Definition espaco : N := 32.      (* the space *)
Definition nova_linha : N := 10.  (* \n *)

(** [sep.join(partes)] *)
Fixpoint juntar (sep : texto) (partes : list texto) : texto :=
  match partes with
  | [] => []
  | p :: ps =>
      match ps with
      | [] => p
      | _ :: _ => p ++ sep ++ juntar sep ps
      end
  end.

(** [f" {t:<{l}} "]: the text, filled with spaces on its right up to the
    width [l], between two spaces. *)
Definition celula (t : texto) (l : nat) : texto :=
  [espaco] ++ t ++ replicate (l - length t) espaco ++ [espaco].

(** [linha.values()] *)
Definition valores (linha : registro) : list valor := snd <$> linha.

Section Formatar.

(** Python's built-in [str] on a value; it is not part of the repository. *)
Variable str : valor → texto.

(** The loop [for i, valor in enumerate(linha.values())] that widens the
    columns, from the position [i] on; [None] is the [IndexError] of
    [larguras[i]]. *)
Fixpoint alargar (i : nat) (vs : list valor) (larguras : list nat)
    : option (list nat) :=
  match vs with
  | [] => Some larguras
  | v :: vs' =>
      match larguras !! i with
      | Some l => alargar (S i) vs' (<[i := l `max` length (str v)]> larguras)
      | None => None
      end
  end.

(** The loop [for linha in dados] around it. *)
Fixpoint medir (dados : list registro) (larguras : list nat)
    : option (list nat) :=
  match dados with
  | [] => Some larguras
  | linha :: resto =>
      match alargar 0 (valores linha) larguras with
      | Some larguras' => medir resto larguras'
      | None => None
      end
  end.

Definition separador (larguras : list nat) : texto :=
  [mais] ++ juntar [mais] ((λ l, replicate (l + 2) menos) <$> larguras)
  ++ [mais].

Definition linha_formatada (celulas : list texto) (larguras : list nat)
    : texto :=
  [barra] ++ juntar [barra] (zip_with celula celulas larguras) ++ [barra].

(** [utils.formatar_tabela]; [None] is the [IndexError]. *)
Definition formatar_tabela (dados : list registro) (cabecalho : list texto)
    : option texto :=
  match dados with
  | [] => Some (literal "Nenhum dado encontrado.")
  | _ :: _ =>
      match medir dados (length <$> cabecalho) with
      | Some larguras =>
          Some (juntar [nova_linha]
                  ([separador larguras;
                    linha_formatada cabecalho larguras;
                    separador larguras]
                   ++ ((λ linha, linha_formatada (str <$> valores linha)
                                                 larguras) <$> dados)
                   ++ [separador larguras]))
      | None => None
      end
  end.

End Formatar.

End Tabela.

Import Storage OracleGateway Estoque.

(** ** main.py: the mutations, as the menu dispatches them *)

Inductive operacao :=
| Adicionar (i : insumo)
| Atualizar (codigo : valor) (novos_dados : insumo)
| Remover (codigo : valor)
| Entrada (codigo quantidade : valor)
| Saida (codigo quantidade : valor).

Section Menu.

Variable float_de_texto : string → option flutuante.

Definition executar (op : operacao) : M bool :=
  match op with
  | Adicionar i => adicionar_insumo i
  | Atualizar codigo novos_dados => atualizar_insumo codigo novos_dados
  | Remover codigo => remover_insumo codigo
  | Entrada codigo quantidade =>
      registrar_entrada float_de_texto codigo quantidade
  | Saida codigo quantidade =>
      registrar_saida float_de_texto codigo quantidade
  end.

(** The states reached from [e] by a sequence of operations that all
    satisfy [P] and all return. *)
Inductive alcancavel (P : operacao → Prop) (e : Mundo) : Mundo → Prop :=
| alc_inicio : alcancavel P e e
| alc_passo e1 e2 op b :
    alcancavel P e e1 → P op → executar op e1 = Ret (b, e2) →
    alcancavel P e e2.

End Menu.

(** * Vocabulary of the statements *)

(** What a call leaves alone when it only talks to the data base. *)
Definition mesmo_local (e e' : Mundo) : Prop :=
  insumos e' = insumos e ∧ arquivo e' = arquivo e ∧ terminal e' = terminal e.

(** A call that always returns and only talks to the data base. *)
Definition remoto {A} (m : M A) : Prop :=
  ∀ e, ∃ a e', m e = Ret (a, e') ∧ mesmo_local e e'.

(** A record that carries the key [codigo]. *)
Definition tem_codigo (i : insumo) : Prop := is_Some (i !! "codigo").

(** A record whose code is [c], as [==] sees it. *)
Definition tem_o_codigo (c : valor) (i : insumo) : bool :=
  match i !! "codigo" with
  | Some v => py_eq v c
  | None => false
  end.

(** The first record of a list with a given code, and its position. *)
Definition primeiro (c : valor) (l : list insumo) : option (nat * insumo) :=
  list_find (λ i : insumo, tem_o_codigo c i) l.

(** What a write of the list [l] leaves in the file, and what it prints:
    the list itself and nothing when every value has a JSON form, a file
    cut short and the message of the failure otherwise. *)
Definition gravado (l : list insumo) : ficheiro :=
  if serializaveis l then Documento l else Corrompido.

Definition aviso_de_gravacao (l : list insumo) : list mensagem :=
  if serializaveis l then [] else [ErroAoSalvar].

(** The state after a refused call: only the error message was printed. *)
Definition recusado (m : erro) (e : Mundo) : Mundo :=
  com_terminal (terminal e ++ [Erro m]) e.

(** The supply record of the data model: the six keys, with their types. *)
Definition e_numero (o : option valor) : bool :=
  match o with
  | Some (VNum _) => true
  | _ => false
  end.

Definition e_texto (o : option valor) : bool :=
  match o with
  | Some (VStr _) => true
  | _ => false
  end.

Definition bem_formado (i : insumo) : bool :=
  e_numero (i !! "codigo") && e_texto (i !! "nome") &&
  e_numero (i !! "quantidade") && e_texto (i !! "unidade") &&
  e_numero (i !! "preco_unit") && e_numero (i !! "nivel_min").

(** A record is in alert when its quantity is at most its minimum level. *)
Definition em_alerta (i : insumo) : bool :=
  match i !! "quantidade", i !! "nivel_min" with
  | Some (VNum q), Some (VNum m) => f_menor_igual q m
  | _, _ => false
  end.

(** The view of a record in the list of alerts: five of its fields. *)
Definition campos_alerta : list string :=
  ["codigo"; "nome"; "quantidade"; "unidade"; "nivel_min"].

Definition projetar (i : insumo) : insumo :=
  filter (λ kv : string * valor, kv.1 ∈ campos_alerta) i.

(** The quantity of a record is a number that is not negative. *)
Definition quantidade_ok (i : insumo) : bool :=
  match i !! "quantidade" with
  | Some (VNum q) => f_menor_igual zero q
  | _ => false
  end.

(** The codes of the records of a list, in order, and what it is for them
    to be pairwise distinct: no code is [==] to a later one. *)
Definition codigos (l : list insumo) : list (option valor) :=
  (λ i : insumo, i !! "codigo") <$> l.

Definition mesmo_codigo (o o' : option valor) : bool :=
  match o, o' with
  | Some v, Some v' => py_eq v v'
  | _, _ => false
  end.

Fixpoint distintos (cs : list (option valor)) : bool :=
  match cs with
  | [] => true
  | o :: cs' => forallb (λ o', negb (mesmo_codigo o o')) cs' && distintos cs'
  end.

Section Condicoes.

Variable float_de_texto : string → option flutuante.

(** An amount that, if it is a number at all, is a finite one. *)
Definition quantia_finita (v : valor) : Prop :=
  ∀ x, validar_float float_de_texto v = Ret (Some x) → ∃ a, x = Fin a.

(** The condition on the working set under which a mutation is accepted:
    the code of an addition is new; the code of the other mutations is
    there; the amount of an entry or of an exit is a positive number, the
    quantity in stock has a float and, for an exit, covers the amount. *)
Definition precondicao (op : operacao) (l : list insumo) : Prop :=
  match op with
  | Adicionar i =>
      bem_formado i ∧
      ∀ c r, i !! "codigo" = Some c → r ∈ l → ¬ tem_o_codigo c r
  | Atualizar c _ => is_Some (primeiro c l)
  | Remover c => is_Some (primeiro c l)
  | Entrada c v =>
      ∃ n i q q' x, primeiro c l = Some (n, i) ∧
                    i !! "quantidade" = Some (VNum q) ∧
                    para_float q = Ret q' ∧
                    validar_float float_de_texto v = Ret (Some x) ∧
                    f_menor zero x
  | Saida c v =>
      ∃ n i q q' x, primeiro c l = Some (n, i) ∧
                    i !! "quantidade" = Some (VNum q) ∧
                    para_float q = Ret q' ∧
                    validar_float float_de_texto v = Ret (Some x) ∧
                    f_menor zero x ∧ f_menor_igual x q
  end.

(** The mutations that are given no negative quantity: the record of an
    addition has a quantity that is not negative, the fields of an update
    either leave the quantity out or give one that is not negative, and the
    amount of an entry or of an exit is finite. *)
Definition conserva_quantidade (op : operacao) : Prop :=
  match op with
  | Adicionar i => quantidade_ok i
  | Atualizar _ d => d !! "quantidade" = None ∨ quantidade_ok d
  | Remover _ => True
  | Entrada _ v => quantia_finita v
  | Saida _ v => quantia_finita v
  end.

End Condicoes.

(** The mutations that do not rename a record: the fields of an update
    either leave the code out or repeat the code of the call. *)
Definition conserva_codigo (op : operacao) : Prop :=
  match op with
  | Atualizar c d => d !! "codigo" = None ∨ d !! "codigo" = Some c
  | _ => True
  end.

(** ** A pass without faults, as a function on the remote table *)

(** No interaction to come ends in a fault. *)
Definition sem_falhas (e : Mundo) : Prop :=
  Forall (λ b : bool, b = false) (falhas e).

(** The gateway refuses the next two connections. *)
Definition sem_conexao (e : Mundo) : Prop :=
  ∃ fs, falhas e = true :: true :: fs.

(** The fields of a record that an update sends. *)
Definition campos (i : insumo) : insumo :=
  filter (λ kv : string * valor, kv.1 ∈ campos_permitidos) i.

(** The row that an insertion writes. *)
Definition linha_nova (i : insumo) : insumo :=
  <["nome" := get i "nome"]> (<["quantidade" := get i "quantidade"]>
  (<["unidade" := get i "unidade"]> (<["preco_unit" := get i "preco_unit"]>
  (<["nivel_min" := get i "nivel_min"]> ∅)))).

(** Insert-if-absent-else-update, on the row of the code of the record. *)
Definition gravar_linha (i : insumo) (o : option insumo) : option insumo :=
  Some match o with
       | Some linha => campos i ∪ linha
       | None => linha_nova i
       end.

Definition upsert (i : insumo) (t : gmap Qc insumo) : gmap Qc insumo :=
  match i !! "codigo" with
  | Some (VNum (Fin c)) => partial_alter (gravar_linha i) c t
  | _ => t
  end.

Definition passagem (l : list insumo) (t : gmap Qc insumo) : gmap Qc insumo :=
  foldl (λ t i, upsert i t) t l.

(** [e'] follows [e] by interactions without faults that leave the table
    [t]. *)
Definition sao (e e' : Mundo) (t : gmap Qc insumo) : Prop :=
  mesmo_local e e' ∧ tabela e' = t ∧ sem_falhas e'.

(** The passes over one row: what a list of records does to the row of the
    code [c], and the fields that its updates write, the later ones first. *)
Fixpoint linha_apos (c : Qc) (l : list insumo) (o : option insumo)
    : option insumo :=
  match l with
  | [] => o
  | i :: l' =>
      linha_apos c l'
        (if decide (i !! "codigo" = Some (VNum (Fin c)))
         then gravar_linha i o else o)
  end.

Fixpoint escritos (c : Qc) (l : list insumo) : insumo :=
  match l with
  | [] => ∅
  | i :: l' =>
      escritos c l' ∪
      (if decide (i !! "codigo" = Some (VNum (Fin c))) then campos i else ∅)
  end.

(** ** States and records of the examples *)

Definition sem_texto : string → option flutuante := λ _, None.

Definition vazio : Mundo := mkMundo [] Ausente false ∅ [] [].

Definition ureia : insumo :=
  <["codigo" := num 1]> (<["nome" := VStr "Ureia"]>
  (<["quantidade" := num 100]> (<["unidade" := VStr "kg"]>
  (<["preco_unit" := VNum (Fin (Q2Qc (5 # 2)))]>
  (<["nivel_min" := num 20]> ∅))))).

Definition calcario : insumo :=
  <["codigo" := num 2]> (<["nome" := VStr "Calcario"]>
  (<["quantidade" := num 10]> (<["unidade" := VStr "t"]>
  (<["preco_unit" := num 80]> (<["nivel_min" := num 15]> ∅))))).

Definition ureia_negativa : insumo := <["quantidade" := num (-5)]> ureia.

Definition com_ureia : Mundo :=
  mkMundo [ureia] (Documento [ureia]) false ∅ [] [].

Definition com_dois : Mundo :=
  mkMundo [ureia; calcario] (Documento [ureia; calcario]) false ∅ [] [].

(** The gateway cannot connect once, then works. *)
Definition fora_do_ar : Mundo :=
  mkMundo [ureia] Ausente false ∅ [true] [].

(** The record 1 after an exit of 90: the floats of 100 and of 90, and
    their difference. *)
Definition ureia_baixa : insumo :=
  <["quantidade" :=
      VNum (f_subtrai (arredondar (Qc_of_Z 100)) (arredondar (Qc_of_Z 90)))]>
    ureia.

Definition depois_da_saida : Mundo :=
  mkMundo [ureia_baixa] (Documento [ureia_baixa]) false ∅ []
    [AlertaNivelMinimo (VStr "Ureia");
     SucessoSaida (arredondar (Qc_of_Z 90)) (VStr "kg")].

(** A third record. *)
Definition gesso : insumo :=
  <["codigo" := num 3]> (<["nome" := VStr "Gesso"]>
  (<["quantidade" := num 40]> (<["unidade" := VStr "t"]>
  (<["preco_unit" := num 120]> (<["nivel_min" := num 5]> ∅))))).

(** The record 1 as the data base lists it, with its two time stamps, in
    a working set that was loaded from the data base; the file holds the
    record as an earlier session wrote it. *)
Definition ureia_do_banco : insumo :=
  <["data_criacao" := VData 0]> (<["data_atualizacao" := VData 0]> ureia).

Definition vindo_do_banco : Mundo :=
  mkMundo [ureia_do_banco] (Documento [ureia]) false ∅ [] [].

(** The record 1 with 10^16 kg in stock. *)
Definition ureia_a_granel : insumo :=
  <["quantidade" := num (10 ^ 16)]> ureia.

Definition com_muita_ureia : Mundo :=
  mkMundo [ureia_a_granel] (Documento [ureia_a_granel]) false ∅ [] [].

(** ** Vocabulary of the further properties *)

(** A call that, whenever it returns, has taken the state along [R]. *)
Definition respeita {A} (R : Mundo → Mundo → Prop) (m : M A) : Prop :=
  ∀ e a e', m e = Ret (a, e') → R e e'.

(** A state without a connection stays without one. *)
Definition sem_ligacao_aberta (e e' : Mundo) : Prop :=
  connection e = false → connection e' = false.

(** Every row of the remote table is still there. *)
Definition linhas_ficam (e e' : Mundo) : Prop :=
  ∀ c, is_Some (tabela e !! c) → is_Some (tabela e' !! c).

(** The sizes [ns] fit, position by position, in the widths [ls]. *)
Definition cabem (ns ls : list nat) : Prop :=
  ∀ k n, ns !! k = Some n → ∃ l, ls !! k = Some l ∧ (n ≤ l)%nat.

(** The row of the code [c] in the remote table is as it was. *)
Definition linha_intacta (c : Qc) (e e' : Mundo) : Prop :=
  tabela e' !! c = tabela e !! c.

(** The list that the file holds; it is empty without a file. *)
Definition registros (a : ficheiro) : list insumo :=
  match a with
  | Documento l => l
  | _ => []
  end.

(** A file that a load reads without a message and without an exception:
    no file, or a JSON list of records. *)
Definition legivel (a : ficheiro) : bool :=
  match a with
  | Ausente | Documento _ => true
  | _ => false
  end.


(** ** States and data of the further examples *)

(** The record 1 in the working set, its row and the row of a code 7 that
    no record carries in the remote table. *)
Definition com_linhas : Mundo :=
  mkMundo [ureia] (Documento [ureia]) false
    (<[Qc_of_Z 1 := linha_nova ureia]> {[Qc_of_Z 7 := linha_nova calcario]})
    [] [].


(** A rendering of the values as texts, and a table of one row. *)
Definition str_exemplo (v : valor) : Tabela.texto :=
  match v with
  | VStr s => Tabela.literal s
  | VNum _ => Tabela.literal "100.0"
  | VNone => Tabela.literal "None"
  | VData _ => Tabela.literal "2024-01-01 00:00:00"
  end.

Definition uma_linha : list Tabela.registro :=
  [[("nome", VStr "Ureia"); ("quantidade", num 100)]].

Definition dois_titulos : list Tabela.texto :=
  [Tabela.literal "Nome"; Tabela.literal "Quantidade"].


(** * Properties *)

(** ** The monad *)

Lemma ligar_Ret {A B} (m : M A) (k : A → M B) e r :
  ligar m k e = Ret r ↔ ∃ a e1, m e = Ret (a, e1) ∧ k a e1 = Ret r.
Proof.
  unfold ligar. split.
  - destruct (m e) as [[a e1]|x]; [eauto | discriminate].
  - intros (a & e1 & -> & Hk). exact Hk.
Qed.

Lemma tentar_Ret {A B} (m : resultado A) (k : A → resultado B) r :
  tentar m k = Ret r ↔ ∃ a, m = Ret a ∧ k a = Ret r.
Proof.
  unfold tentar. split.
  - destruct m as [a|x]; [eauto | discriminate].
  - intros (a & -> & Hk). exact Hk.
Qed.

Lemma puro_Ret {A} (m : resultado A) e a e' :
  puro m e = Ret (a, e') ↔ m = Ret a ∧ e' = e.
Proof.
  unfold puro. destruct m; split.
  - intros H. by simplify_eq.
  - intros [H ->]. by simplify_eq.
  - discriminate.
  - intros [H _]. discriminate.
Qed.

Lemma item_Ret (d : insumo) k v : item d k = Ret v ↔ d !! k = Some v.
Proof. unfold item. destruct (d !! k); split; intros; simplify_eq; done. Qed.

Lemma mesmo_local_refl e : mesmo_local e e.
Proof. done. Qed.

Lemma mesmo_local_trans e1 e2 e3 :
  mesmo_local e1 e2 → mesmo_local e2 e3 → mesmo_local e1 e3.
Proof. unfold mesmo_local. intros (-> & -> & ->) (-> & -> & ->). done. Qed.

Lemma remoto_Ret {A} (m : M A) e a e' :
  remoto m → m e = Ret (a, e') → mesmo_local e e'.
Proof. intros Hm H. destruct (Hm e) as (? & ? & H' & L). congruence. Qed.

Lemma remoto_retorna {A} (a : A) : remoto (retorna a).
Proof. intros e. exists a, e. done. Qed.

Lemma remoto_ligar {A B} (m : M A) (k : A → M B) :
  remoto m → (∀ a, remoto (k a)) → remoto (ligar m k).
Proof.
  intros Hm Hk e. destruct (Hm e) as (a & e1 & Hme & H1).
  destruct (Hk a e1) as (b & e2 & Hke & H2).
  exists b, e2. split; [| by eapply mesmo_local_trans].
  apply ligar_Ret. eauto.
Qed.

Lemma remoto_interagir : remoto interagir.
Proof.
  intros e. unfold interagir.
  destruct (falhas e) as [|f fs]; eexists _, _; (split; [reflexivity | done]).
Qed.

Lemma remoto_mudar f :
  (∀ e, mesmo_local e (f e)) → remoto (mudar f).
Proof. intros Hf e. eexists _, _. split; [reflexivity | apply Hf]. Qed.

Lemma remoto_ler {A} (f : Mundo → A) : remoto (ler f).
Proof. intros e. by eexists _, _. Qed.

Lemma remoto_if {A} (b : bool) (m1 m2 : M A) :
  remoto m1 → remoto m2 → remoto (if b then m1 else m2).
Proof. by destruct b. Qed.

Lemma remoto_conectar : remoto conectar.
Proof.
  apply remoto_ligar; [apply remoto_interagir |]. intros f.
  apply remoto_if; [apply remoto_retorna |].
  apply remoto_ligar; [by apply remoto_mudar | intros; apply remoto_retorna].
Qed.

Lemma remoto_desconectar : remoto desconectar.
Proof. by apply remoto_mudar. Qed.

Lemma remoto_executar_query sql : remoto (executar_query sql).
Proof.
  apply remoto_ligar; [apply remoto_conectar |]. intros ok.
  apply remoto_if; [apply remoto_retorna |].
  apply remoto_ligar; [apply remoto_interagir |]. intros f.
  apply remoto_if; [apply remoto_retorna | apply remoto_ler].
Qed.

Lemma remoto_executar_dml sql : remoto (executar_dml sql).
Proof.
  apply remoto_ligar; [apply remoto_conectar |]. intros ok.
  apply remoto_if; [apply remoto_retorna |].
  apply remoto_ligar; [apply remoto_interagir |]. intros f.
  apply remoto_if; [apply remoto_retorna |].
  apply remoto_ligar; [apply remoto_ler |]. intros t.
  destruct (sql t); [| apply remoto_retorna].
  apply remoto_ligar; [by apply remoto_mudar | intros; apply remoto_retorna].
Qed.

Lemma remoto_oracle_buscar_insumo c : remoto (OracleGateway.buscar_insumo c).
Proof.
  apply remoto_ligar; [apply remoto_executar_query |].
  intros; apply remoto_retorna.
Qed.

Lemma remoto_oracle_inserir_insumo i : remoto (OracleGateway.inserir_insumo i).
Proof. apply remoto_executar_dml. Qed.

Lemma remoto_oracle_atualizar_insumo c i : remoto (OracleGateway.atualizar_insumo c i).
Proof.
  unfold OracleGateway.atualizar_insumo.
  apply remoto_if; [apply remoto_retorna | apply remoto_executar_dml].
Qed.

Lemma remoto_sincronizar_insumo i :
  tem_codigo i → remoto (sincronizar_insumo i).
Proof.
  intros [c Hc]. unfold sincronizar_insumo, item. rewrite Hc.
  apply remoto_ligar; [intros e; by eexists _, _ |]. intros c'.
  apply remoto_ligar; [apply remoto_oracle_buscar_insumo |]. intros achado.
  apply remoto_if.
  - apply remoto_ligar; [apply remoto_oracle_inserir_insumo |].
    intros; apply remoto_retorna.
  - apply remoto_ligar; [intros e; by eexists _, _ |]. intros c''.
    apply remoto_ligar; [apply remoto_oracle_atualizar_insumo |].
    intros; apply remoto_retorna.
Qed.

Lemma remoto_para_cada {A} (corpo : A → M unit) (P : A → Prop) l :
  (∀ x, P x → remoto (corpo x)) → Forall P l → remoto (para_cada corpo l).
Proof.
  intros Hc. induction 1 as [|x l Hx _ IH]; simpl.
  - apply remoto_retorna.
  - apply remoto_ligar; [by apply Hc | done].
Qed.

(** If the loop body returns, it has only talked to the data base. *)
Lemma sincronizar_insumo_local i e u e' :
  sincronizar_insumo i e = Ret (u, e') → mesmo_local e e'.
Proof.
  intros H. assert (tem_codigo i) as Hi.
  { unfold sincronizar_insumo in H. apply ligar_Ret in H as (c & e1 & H & _).
    apply puro_Ret in H as [H _]. apply item_Ret in H. by exists c. }
  destruct (remoto_sincronizar_insumo i Hi e) as (u' & e'' & H' & Hl).
  congruence.
Qed.

Lemma para_cada_local {A} (corpo : A → M unit) l :
  (∀ x e u e', corpo x e = Ret (u, e') → mesmo_local e e') →
  ∀ e u e', para_cada corpo l e = Ret (u, e') → mesmo_local e e'.
Proof.
  intros Hc. induction l as [|x l IH]; simpl; intros e u e' H.
  - unfold retorna in H. by simplify_eq.
  - apply ligar_Ret in H as (a & e1 & H1 & H2).
    eapply mesmo_local_trans; eauto.
Qed.

Lemma ler_Ret {A} (f : Mundo → A) e a e' :
  ler f e = Ret (a, e') ↔ a = f e ∧ e' = e.
Proof. unfold ler. split; [intros H; by simplify_eq | by intros [-> ->]]. Qed.

Lemma mudar_Ret f e u e' : mudar f e = Ret (u, e') ↔ e' = f e.
Proof.
  unfold mudar. destruct u. split; [intros H; by simplify_eq | by intros ->].
Qed.

Lemma retorna_Ret {A} (a : A) e b e' :
  retorna a e = Ret (b, e') ↔ b = a ∧ e' = e.
Proof.
  unfold retorna. split; [intros H; by simplify_eq | by intros [-> ->]].
Qed.

(** A write returns: it changes the file, and the terminal when it fails. *)
Lemma salvar_insumos_Ret l e b e' :
  salvar_insumos l e = Ret (b, e') ↔
  b = serializaveis l ∧
  e' = com_terminal (terminal e ++ aviso_de_gravacao l)
         (com_arquivo (gravado l) e).
Proof.
  unfold salvar_insumos, gravado, aviso_de_gravacao.
  destruct (serializaveis l);
    unfold ligar, imprimir, mudar, retorna, com_terminal, com_arquivo;
    cbn [insumos arquivo connection tabela falhas terminal];
    rewrite ?app_nil_r; destruct e; cbn [insumos arquivo connection tabela
      falhas terminal];
    (split; [intros H; by simplify_eq | by intros [-> ->]]).
Qed.

(** A pass that returns leaves the working set alone; the file holds what
    the write of the working set leaves, and the terminal has received the
    message of that write, if any. *)
Lemma _sincronizar_Ret e u e' :
  _sincronizar e = Ret (u, e') →
  insumos e' = insumos e ∧ arquivo e' = gravado (insumos e) ∧
  terminal e' = terminal e ++ aviso_de_gravacao (insumos e).
Proof.
  unfold _sincronizar. intros H.
  apply ligar_Ret in H as (ok & e1 & Hc & H).
  pose proof (remoto_Ret _ _ _ _ remoto_conectar Hc) as L1.
  apply ligar_Ret in H as (? & e2 & Hloop & H).
  assert (mesmo_local e1 e2) as L2.
  { destruct ok.
    - apply ligar_Ret in Hloop as (l & e3 & Hl & Hloop).
      unfold ler in Hl. simplify_eq.
      apply ligar_Ret in Hloop as (? & e4 & Hloop & Hd).
      eapply mesmo_local_trans.
      + eapply para_cada_local; [apply sincronizar_insumo_local | done].
      + unfold desconectar, mudar in Hd. by simplify_eq.
    - unfold retorna in Hloop. by simplify_eq. }
  apply ligar_Ret in H as (l & e3 & Hl & H). apply ler_Ret in Hl as [-> ->].
  apply ligar_Ret in H as (b & e3 & Hs & H).
  apply salvar_insumos_Ret in Hs as [_ ->]. apply retorna_Ret in H as [_ ->].
  destruct L1 as (I1 & A1 & T1), L2 as (I2 & A2 & T2). simpl.
  rewrite I2, I1, T2, T1. done.
Qed.

(** A pass over records that all carry a code returns. *)
Lemma _sincronizar_total e :
  Forall tem_codigo (insumos e) → ∃ e', _sincronizar e = Ret (tt, e').
Proof.
  intros Hwf. unfold _sincronizar.
  destruct (remoto_conectar e) as (ok & e1 & Hc & (I1 & _)).
  assert (∃ u e2, (if ok then
             faz l ← ler insumos; para_cada sincronizar_insumo l ;; desconectar
           else retorna tt) e1 = Ret (u, e2)) as (u & e2 & H2).
  { destruct ok; [| by eexists _, _].
    unfold ler at 1. unfold ligar at 1. rewrite I1.
    edestruct (remoto_ligar (para_cada sincronizar_insumo (insumos e))
      (λ _, desconectar)) as (u & e2 & H & _); [| | by eauto].
    - eapply remoto_para_cada; [apply remoto_sincronizar_insumo | done].
    - intros _. apply remoto_desconectar. }
  eexists. apply ligar_Ret. eexists _, _. split; [exact Hc |].
  apply ligar_Ret. eexists _, _. split; [exact H2 |].
  apply ligar_Ret. eexists _, _. split; [by apply ler_Ret |].
  apply ligar_Ret. eexists _, _. split; [by apply salvar_insumos_Ret |].
  reflexivity.
Qed.

Ltac desmontar :=
  repeat (cbv beta in *; match goal with
  | H : ligar _ _ _ = Ret _ |- _ => apply ligar_Ret in H as (? & ? & ? & ?)
  | H : puro _ _ = Ret _ |- _ => apply puro_Ret in H as [? ?]
  | H : ler _ _ = Ret _ |- _ => apply ler_Ret in H as [? ?]
  | H : mudar _ _ = Ret _ |- _ => apply mudar_Ret in H
  | H : imprimir _ _ = Ret _ |- _ => apply mudar_Ret in H
  | H : retorna _ _ = Ret _ |- _ => apply retorna_Ret in H as [? ?]
  | H : item _ _ = Ret _ |- _ => apply item_Ret in H
  | H : _sincronizar _ = Ret _ |- _ => apply _sincronizar_Ret in H as (? & ? & ?)
  | H : tentar _ _ = Ret _ |- _ => apply tentar_Ret in H as (? & ? & ?)
  end); subst.

(** ** The search loop *)

Lemma tem_o_codigo_tem_codigo c i : tem_o_codigo c i → tem_codigo i.
Proof. unfold tem_o_codigo, tem_codigo. by destruct (i !! "codigo"). Qed.

Lemma procurar_Some c l n i :
  procurar c l = Ret (Some (n, i)) →
  l !! n = Some i ∧ tem_o_codigo c i ∧
  ∀ j r, (j < n)%nat → l !! j = Some r → tem_codigo r ∧ ¬ tem_o_codigo c r.
Proof.
  revert n. induction l as [|r l IH]; intros n H; simpl in H; [done |].
  desmontar.
  match goal with H : r !! "codigo" = Some ?v |- _ =>
    destruct (py_eq v c) eqn:Heq; simplify_eq; rename H into Hr end.
  - split_and!; [done | | intros; lia].
    unfold tem_o_codigo. by rewrite Hr, Heq.
  - desmontar.
    match goal with H : procurar _ _ = Ret ?o |- _ =>
      destruct o as [[m i']|]; simplify_eq/=;
      destruct (IH _ H) as (Hl & Hc & Hlt) end.
    split_and!; [done | done |].
    intros [|j] r' Hj Hr'; simplify_eq/=.
    + split; [by eexists |]. unfold tem_o_codigo. rewrite Hr, Heq. by intros [].
    + apply (Hlt j); [lia | done].
Qed.

Lemma procurar_None c l :
  procurar c l = Ret None →
  Forall (λ r : insumo, tem_codigo r ∧ ¬ tem_o_codigo c r) l.
Proof.
  induction l as [|r l IH]; intros H; simpl in H; [done |].
  desmontar.
  match goal with H : r !! "codigo" = Some ?v |- _ =>
    destruct (py_eq v c) eqn:Heq; simplify_eq; rename H into Hr end.
  desmontar.
  match goal with H : procurar _ _ = Ret ?o |- _ =>
    destruct o as [[m i']|]; simplify_eq/= end.
  constructor; [| by apply IH].
  split; [by eexists |]. unfold tem_o_codigo. rewrite Hr, Heq. by intros [].
Qed.

Lemma procurar_primeiro c l :
  Forall tem_codigo l → procurar c l = Ret (primeiro c l).
Proof.
  unfold primeiro. induction 1 as [|i l [v Hv] _ IH]; simpl; [done |].
  unfold item. rewrite Hv. simpl. rewrite IH. simpl.
  case_decide as Hd; unfold tem_o_codigo in Hd; rewrite Hv in Hd;
    destruct (py_eq v c); done.
Qed.

Lemma verdadeiro_codigo (i : insumo) :
  tem_codigo i → verdadeiro (Some i) = true.
Proof.
  intros [c H]. simpl. case_bool_decide; [| done]. subst.
  by rewrite lookup_empty in H.
Qed.

(** ** What a call that returns has done *)

Lemma adicionar_insumo_Ret i e b e' :
  adicionar_insumo i e = Ret (b, e') →
  (b = false ∧ e' = com_terminal (terminal e ++ [Erro CodigoJaExiste]) e) ∨
  (b = true ∧ insumos e' = insumos e ++ [i] ∧
   arquivo e' = gravado (insumos e') ∧
   ∃ c, i !! "codigo" = Some c ∧ procurar c (insumos e) = Ret None).
Proof.
  unfold adicionar_insumo, buscar_insumo. intros H. desmontar.
  destruct (verdadeiro _) eqn:Hv; desmontar.
  - by left.
  - right.
    match goal with H : procurar _ _ = Ret ?o |- _ =>
      destruct o as [[n r]|]; [apply procurar_Some in H as (_ & Hc & _) |] end.
    + apply tem_o_codigo_tem_codigo, verdadeiro_codigo in Hc.
      simpl in *. congruence.
    + simpl in *. split_and!; [done | congruence | congruence | eauto].
Qed.

Lemma atualizar_insumo_Ret c d e b e' :
  atualizar_insumo c d e = Ret (b, e') →
  (b = false ∧ e' = recusado NaoEncontrado e) ∨
  (b = true ∧ ∃ n r, procurar c (insumos e) = Ret (Some (n, r)) ∧
   insumos e' = <[n := d ∪ r]> (insumos e) ∧
   arquivo e' = gravado (insumos e')).
Proof.
  unfold atualizar_insumo. intros H. desmontar.
  match goal with H : procurar _ _ = Ret ?o |- _ =>
    destruct o as [[n r]|] end; desmontar.
  - right. split; [done |]. exists n, r. simpl in *.
    split_and!; [done | congruence | congruence].
  - by left.
Qed.

Lemma remover_insumo_Ret c e b e' :
  remover_insumo c e = Ret (b, e') →
  (b = false ∧ e' = recusado NaoEncontrado e) ∨
  (b = true ∧ ∃ n r, procurar c (insumos e) = Ret (Some (n, r)) ∧
   insumos e' = delete n (insumos e) ∧
   arquivo e' = gravado (insumos e')).
Proof.
  unfold remover_insumo. intros H. desmontar.
  match goal with H : procurar _ _ = Ret ?o |- _ =>
    destruct o as [[n r]|] end; desmontar.
  - right. split; [done |]. exists n, r. simpl in *.
    split_and!; [done | congruence | congruence].
  - by left.
Qed.

Section Transacoes_Ret.

Variable float_de_texto : string → option flutuante.

Lemma registrar_entrada_Ret c v e b e' :
  registrar_entrada float_de_texto c v e = Ret (b, e') →
  (b = false ∧ ∃ m, e' = recusado m e) ∨
  (b = true ∧ ∃ n r q q' x,
     procurar c (insumos e) = Ret (Some (n, r)) ∧
     validar_float float_de_texto v = Ret (Some x) ∧
     f_menor_igual x zero = false ∧
     r !! "quantidade" = Some (VNum q) ∧ para_float q = Ret q' ∧
     insumos e' = <[n := <["quantidade" := VNum (f_soma q' x)]> r]> (insumos e) ∧
     arquivo e' = gravado (insumos e')).
Proof.
  unfold registrar_entrada, buscar_insumo. intros H. desmontar.
  match goal with H : procurar _ _ = Ret ?o |- _ =>
    destruct o as [[n r]|] end; desmontar; [| left; eauto].
  destruct (negb _); desmontar; [left; eauto |].
  match goal with H : validar_float _ _ = Ret ?o |- _ =>
    destruct o as [x|] end; desmontar; [| left; eauto].
  destruct (f_menor_igual x zero) eqn:Hx; desmontar; [left; eauto |].
  match goal with H : py_add_float ?a _ = Ret _ |- _ =>
    destruct a as [|q| |]; cbn [py_add_float] in H; try done;
    apply tentar_Ret in H as (q' & Hq' & H); simplify_eq end.
  right. split; [done |]. exists n, r, q, q', x. simpl in *.
  split_and!; [done | done | done | done | done | congruence | congruence].
Qed.

Lemma registrar_saida_Ret c v e b e' :
  registrar_saida float_de_texto c v e = Ret (b, e') →
  (b = false ∧ ∃ m, e' = recusado m e) ∨
  (b = true ∧ ∃ n r q q' x,
     procurar c (insumos e) = Ret (Some (n, r)) ∧
     validar_float float_de_texto v = Ret (Some x) ∧
     f_menor_igual x zero = false ∧ f_menor q x = false ∧
     r !! "quantidade" = Some (VNum q) ∧ para_float q = Ret q' ∧
     insumos e' =
       <[n := <["quantidade" := VNum (f_subtrai q' x)]> r]> (insumos e) ∧
     arquivo e' = gravado (insumos e')).
Proof.
  unfold registrar_saida, buscar_insumo. intros H. desmontar.
  match goal with H : procurar _ _ = Ret ?o |- _ =>
    destruct o as [[n r]|] end; desmontar; [| left; eauto].
  destruct (negb _); desmontar; [left; eauto |].
  match goal with H : validar_float _ _ = Ret ?o |- _ =>
    destruct o as [x|] end; desmontar; [| left; eauto].
  destruct (f_menor_igual x zero) eqn:Hx; desmontar; [left; eauto |].
  match goal with H : py_lt_float ?a _ = Ret _ |- _ =>
    destruct a as [|q| |]; simplify_eq/= end.
  destruct (f_menor q x) eqn:Hlt; desmontar; [left; eauto |].
  match goal with H : para_float q = Ret ?y |- _ =>
    rename y into q', H into Hq' end.
  match goal with H : Ret (VNum _) = Ret _ |- _ => injection H as <- end.
  right. split.
  { match goal with H : (if ?b then _ else _) _ = Ret _ |- _ =>
      destruct b end; desmontar; done. }
  exists n, r, q, q', x.
  assert (∀ e1 e2 (u : unit) (b' : bool) nome,
    (if b' then faz nome ← puro (item nome "nome"); imprimir (AlertaNivelMinimo nome)
     else retorna tt) e1 = Ret (u, e2) →
    insumos e2 = insumos e1 ∧ arquivo e2 = arquivo e1) as Haux.
  { intros e1 e2 u [] nome Hn; desmontar; done. }
  match goal with H : (if _ then _ else _) _ = Ret _ |- _ =>
    apply Haux in H as [Hi Ha] end.
  simpl in *.
  split_and!;
    [done | done | done | done | done | done | congruence | congruence].
Qed.

End Transacoes_Ret.

(** ** Calls that return *)

Lemma ligar_passo {A B} (m : M A) (k : A → M B) e a e1 :
  m e = Ret (a, e1) → ligar m k e = k a e1.
Proof. unfold ligar. by intros ->. Qed.

Lemma ligar_mudar {B} f (k : unit → M B) e :
  ligar (mudar f) k e = k tt (f e).
Proof. reflexivity. Qed.

Lemma ligar_imprimir {B} m (k : unit → M B) e :
  ligar (imprimir m) k e = k tt (com_terminal (terminal e ++ [m]) e).
Proof. reflexivity. Qed.

Lemma ligar_ler {A B} (f : Mundo → A) (k : A → M B) e :
  ligar (ler f) k e = k (f e) e.
Proof. reflexivity. Qed.

Lemma ligar_puro {A B} (a : A) (k : A → M B) e :
  ligar (puro (Ret a)) k e = k a e.
Proof. reflexivity. Qed.

Lemma ligar_retorna {A B} (a : A) (k : A → M B) e :
  ligar (retorna a) k e = k a e.
Proof. reflexivity. Qed.

Lemma ligar_assoc {A B C} (m : M A) (f : A → M B) (k : B → M C) e :
  ligar (ligar m f) k e = ligar m (λ a, ligar (f a) k) e.
Proof. unfold ligar. by destruct (m e) as [[a e1]|x]. Qed.

Ltac passos :=
  repeat (rewrite ligar_assoc || rewrite ligar_mudar || rewrite ligar_imprimir
          || rewrite ligar_ler || rewrite ligar_puro || rewrite ligar_retorna).

Lemma _sincronizar_ok e :
  Forall tem_codigo (insumos e) →
  ∃ e', _sincronizar e = Ret (tt, e') ∧ insumos e' = insumos e ∧
        arquivo e' = gravado (insumos e) ∧
        terminal e' = terminal e ++ aviso_de_gravacao (insumos e).
Proof.
  intros H. destruct (_sincronizar_total e H) as (e' & He').
  exists e'. split; [done |]. by eapply _sincronizar_Ret.
Qed.

Lemma e_numero_Some o : e_numero o → ∃ x, o = Some (VNum x).
Proof. destruct o as [[]|]; simpl; try done. eauto. Qed.

Lemma e_texto_Some o : e_texto o → ∃ s, o = Some (VStr s).
Proof. destruct o as [[]|]; simpl; try done. eauto. Qed.

Lemma bem_formado_campos i :
  bem_formado i →
  ∃ c nome q unidade p m,
    i !! "codigo" = Some (VNum c) ∧ i !! "nome" = Some (VStr nome) ∧
    i !! "quantidade" = Some (VNum q) ∧ i !! "unidade" = Some (VStr unidade) ∧
    i !! "preco_unit" = Some (VNum p) ∧ i !! "nivel_min" = Some (VNum m).
Proof.
  unfold bem_formado. rewrite !andb_True.
  intros (((((Hc & Hn) & Hq) & Hu) & Hp) & Hm).
  apply e_numero_Some in Hc as [c Hc], Hq as [q Hq], Hp as [p Hp], Hm as [m Hm].
  apply e_texto_Some in Hn as [n Hn], Hu as [u Hu].
  by exists c, n, q, u, p, m.
Qed.

Lemma bem_formado_tem_codigo i : bem_formado i → tem_codigo i.
Proof.
  intros H. apply bem_formado_campos in H as (c & ? & ? & ? & ? & ? & Hc & _).
  by exists (VNum c).
Qed.

Lemma Forall_bem_formado_tem_codigo l :
  Forall (λ i, bem_formado i) l → Forall tem_codigo l.
Proof.
  intros H. eapply Forall_impl; [exact H |]. intros i.
  apply bem_formado_tem_codigo.
Qed.

Lemma primeiro_Some c l n i :
  primeiro c l = Some (n, i) ↔
  l !! n = Some i ∧ tem_o_codigo c i ∧
  ∀ j r, l !! j = Some r → (j < n)%nat → ¬ tem_o_codigo c r.
Proof.
  unfold primeiro. apply (list_find_Some (λ i : insumo, tem_o_codigo c i)).
Qed.

Lemma primeiro_None c l :
  primeiro c l = None ↔ ∀ r, r ∈ l → ¬ tem_o_codigo c r.
Proof.
  unfold primeiro. rewrite list_find_None, list.Forall_forall. done.
Qed.

Lemma primeiro_elem_of c l r :
  r ∈ l → tem_o_codigo c r → is_Some (primeiro c l).
Proof.
  intros Hr Hc. destruct (primeiro c l) eqn:Hp; [done |].
  rewrite primeiro_None in Hp. by destruct (Hp r Hr).
Qed.

Lemma primeiro_tem_codigo c l n i : primeiro c l = Some (n, i) → tem_codigo i.
Proof.
  intros (_ & Hc & _)%primeiro_Some. by eapply tem_o_codigo_tem_codigo.
Qed.

Lemma adicionar_insumo_duplicado e i c :
  Forall tem_codigo (insumos e) → i !! "codigo" = Some c →
  is_Some (primeiro c (insumos e)) →
  adicionar_insumo i e = Ret (false, recusado CodigoJaExiste e).
Proof.
  intros Hwf Hc [[n r] Hp]. unfold adicionar_insumo, buscar_insumo, item.
  rewrite Hc. passos. rewrite (procurar_primeiro _ _ Hwf). passos.
  rewrite Hp. apply primeiro_tem_codigo in Hp.
  cbn [fmap option_fmap option_map snd]. rewrite (verdadeiro_codigo _ Hp).
  reflexivity.
Qed.

Lemma adicionar_insumo_novo e i c :
  Forall tem_codigo (insumos e) → i !! "codigo" = Some c →
  primeiro c (insumos e) = None →
  ∃ e', adicionar_insumo i e = Ret (true, e') ∧
        insumos e' = insumos e ++ [i] ∧ arquivo e' = gravado (insumos e').
Proof.
  intros Hwf Hc Hp. unfold adicionar_insumo, buscar_insumo, item.
  rewrite Hc. passos. rewrite (procurar_primeiro _ _ Hwf). passos.
  rewrite Hp. cbn [fmap option_fmap option_map verdadeiro]. passos.
  destruct (_sincronizar_ok (com_insumos (insumos e ++ [i]) e))
    as (e1 & Hs & Hi & Ha & _).
  { simpl. apply Forall_app. split; [done |]. repeat constructor. by exists c. }
  rewrite (ligar_passo _ _ _ _ _ Hs). passos.
  eexists. split; [reflexivity |]. simpl in *. by rewrite Hi, Ha.
Qed.

Lemma tem_codigo_union (d i : insumo) : tem_codigo i → tem_codigo (d ∪ i).
Proof.
  unfold tem_codigo. intros [c Hc]. destruct (d !! "codigo") as [v|] eqn:Hd.
  - exists v. by apply lookup_union_Some_l.
  - exists c. by rewrite lookup_union_r.
Qed.

Lemma tem_codigo_insert (i : insumo) k v : tem_codigo i → tem_codigo (<[k := v]> i).
Proof.
  unfold tem_codigo. intros [c Hc]. rewrite lookup_insert.
  case_decide; eauto.
Qed.

Lemma Forall_insert_tem_codigo l n (i : insumo) :
  Forall tem_codigo l → tem_codigo i → Forall tem_codigo (<[n := i]> l).
Proof. intros. by apply Forall_insert. Qed.

Lemma atualizar_insumo_achado e c d n i :
  Forall tem_codigo (insumos e) → primeiro c (insumos e) = Some (n, i) →
  ∃ e', atualizar_insumo c d e = Ret (true, e') ∧
        insumos e' = <[n := d ∪ i]> (insumos e) ∧
        arquivo e' = gravado (insumos e').
Proof.
  intros Hwf Hp. unfold atualizar_insumo. passos.
  rewrite (procurar_primeiro _ _ Hwf), Hp. passos.
  destruct (_sincronizar_ok (com_insumos (<[n := d ∪ i]> (insumos e)) e))
    as (e1 & Hs & Hi & Ha & _).
  { simpl. apply Forall_insert; [done |]. apply tem_codigo_union.
    apply primeiro_Some in Hp as (Hn & _).
    eapply Forall_lookup_1 in Hwf; eauto. }
  rewrite (ligar_passo _ _ _ _ _ Hs). passos.
  eexists. split; [reflexivity |]. simpl in *. by rewrite Hi, Ha.
Qed.

Lemma atualizar_insumo_ausente e c d :
  Forall tem_codigo (insumos e) → primeiro c (insumos e) = None →
  atualizar_insumo c d e = Ret (false, recusado NaoEncontrado e).
Proof.
  intros Hwf Hp. unfold atualizar_insumo. passos.
  by rewrite (procurar_primeiro _ _ Hwf), Hp.
Qed.


Section Transacoes_ok.

Variable float_de_texto : string → option flutuante.



Lemma registrar_saida_ok e c v x n i q q' :
  Forall (λ i, bem_formado i) (insumos e) →
  primeiro c (insumos e) = Some (n, i) →
  validar_float float_de_texto v = Ret (Some x) →
  f_menor_igual x zero = false →
  i !! "quantidade" = Some (VNum q) → f_menor q x = false →
  para_float q = Ret q' →
  ∃ e', registrar_saida float_de_texto c v e = Ret (true, e') ∧
        insumos e' =
          <[n := <["quantidade" := VNum (f_subtrai q' x)]> i]> (insumos e) ∧
        arquivo e' = gravado (insumos e').
Proof.
  intros Hbf Hp Hv Hx Hq Hle Hq'.
  pose proof (Forall_bem_formado_tem_codigo _ Hbf) as Hwf.
  pose proof Hp as (Hn & _)%primeiro_Some.
  pose proof (primeiro_tem_codigo _ _ _ _ Hp) as Hc.
  pose proof (Forall_lookup_1 _ _ _ _ Hbf Hn) as Hi.
  apply bem_formado_campos in Hi
    as (? & nome & ? & u & ? & m & _ & Hnome & _ & Hu & _ & Hm).
  unfold registrar_saida, buscar_insumo. passos.
  rewrite (procurar_primeiro _ _ Hwf), Hp. passos.
  rewrite (verdadeiro_codigo _ Hc). cbn [negb]. rewrite Hv. passos.
  rewrite Hx.
  unfold item. rewrite Hq. passos. cbn [py_lt_float]. passos.
  rewrite Hle.
  cbn [py_sub_float]. rewrite Hq'. cbn [tentar]. passos.
  destruct (_sincronizar_ok (com_insumos
    (<[n := <["quantidade" := VNum (f_subtrai q' x)]> i]> (insumos e)) e))
    as (e1 & Hs & Hi & Ha & _).
  { simpl. apply Forall_insert; [done |]. by apply tem_codigo_insert. }
  rewrite (ligar_passo _ _ _ _ _ Hs). passos.
  rewrite lookup_insert_eq. passos.
  rewrite (lookup_insert_ne _ "quantidade" "nivel_min"), Hm by done. passos.
  cbn [py_le]. passos.
  rewrite (lookup_insert_ne _ "quantidade" "nome"), Hnome by done.
  rewrite (lookup_insert_ne _ "quantidade" "unidade"), Hu by done.
  destruct (f_menor_igual (f_subtrai q' x) m); passos;
    (eexists; split; [reflexivity |]; simpl in *; by rewrite Hi, Ha).
Qed.

End Transacoes_ok.


(** ** The alerts *)

Lemma projetar_lookup (i : insumo) k :
  projetar i !! k = if decide (k ∈ campos_alerta) then i !! k else None.
Proof.
  unfold projetar. case_decide as Hk.
  - destruct (i !! k) as [v|] eqn:Hi.
    + by apply map_lookup_filter_Some.
    + apply map_lookup_filter_None. left. done.
  - apply map_lookup_filter_None. right. intros v _. done.
Qed.

Lemma visao_projetar (i : insumo) c n q u m :
  i !! "codigo" = Some c → i !! "nome" = Some n →
  i !! "quantidade" = Some q → i !! "unidade" = Some u →
  i !! "nivel_min" = Some m →
  <["codigo" := c]> (<["nome" := n]> (<["quantidade" := q]>
    (<["unidade" := u]> (<["nivel_min" := m]> ∅)))) = projetar i.
Proof.
  intros Hc Hn Hq Hu Hm. apply map_eq. intros k.
  rewrite projetar_lookup. unfold campos_alerta.
  repeat (rewrite lookup_insert; case_decide;
          [subst k; by rewrite decide_True by set_solver |]).
  rewrite lookup_empty. case_decide as Hin; [| done]. exfalso.
  repeat (apply elem_of_cons in Hin as [->|Hin]; [done |]).
  by apply elem_of_nil in Hin.
Qed.

Lemma alertas_bem_formado l :
  Forall (λ i, bem_formado i) l →
  alertas l = Ret (projetar <$> filter em_alerta l).
Proof.
  induction 1 as [|i l Hi _ IH]; [done |].
  apply bem_formado_campos in Hi
    as (c & n & q & u & p & m & Hc & Hn & Hq & Hu & Hp & Hm).
  cbn [alertas]. unfold item. rewrite Hq, Hm, Hc, Hn, Hu, IH.
  cbn [tentar py_le]. rewrite filter_cons.
  assert (em_alerta i = f_menor_igual q m) as Ha.
  { unfold em_alerta. by rewrite Hq, Hm. }
  rewrite Ha. destruct (f_menor_igual q m).
  - rewrite decide_True by done.
    rewrite fmap_cons. do 2 f_equal. by apply visao_projetar.
  - by rewrite decide_False by (by intros []).
Qed.
(** ** The binary64 format *)

Section Formato.

Local Open Scope Q_scope.

Lemma pot2_pos p : 0 < 2 ^ p.
Proof. apply Qpower_0_lt. reflexivity. Qed.

Lemma pot2_soma a b : 2 ^ (a + b) == 2 ^ a * 2 ^ b.
Proof. apply Qpower_plus. discriminate. Qed.

Lemma pot2_mono a b : (a ≤ b)%Z → 2 ^ a <= 2 ^ b.
Proof. intros H. apply Qpower_le_compat_l; [exact H | discriminate]. Qed.

Lemma pot2_inteiro n : (0 ≤ n)%Z → 2 ^ n == inject_Z (2 ^ n).
Proof. intros H. symmetry. exact (Zpower_Qpower 2 n H). Qed.

Lemma log2_chao_spec q :
  0 < q → 2 ^ log2_chao q <= q ∧ q < 2 ^ (log2_chao q + 1).
Proof.
  intros Hq. destruct q as [n d].
  assert (0 < n)%Z as Hn by (unfold Qlt in Hq; simpl in Hq; lia).
  unfold log2_chao. cbn [Qnum Qden].
  pose proof (Z.log2_spec n Hn) as [Ha1 Ha2].
  pose proof (Z.log2_spec (Z.pos d) ltac:(lia)) as [Hb1 Hb2].
  pose proof (Z.log2_nonneg n) as Ha0.
  pose proof (Z.log2_nonneg (Z.pos d)) as Hb0.
  set (a := Z.log2 n) in *. set (b := Z.log2 (Z.pos d)) in *.
  assert (2 ^ a <= inject_Z n) as HA1
    by (rewrite pot2_inteiro by lia; by rewrite <- Zle_Qle).
  assert (inject_Z n < 2 ^ (a + 1)) as HA2
    by (rewrite pot2_inteiro by lia; by rewrite <- Zlt_Qlt).
  assert (2 ^ b <= inject_Z (Z.pos d)) as HB1
    by (rewrite pot2_inteiro by lia; by rewrite <- Zle_Qle).
  assert (inject_Z (Z.pos d) < 2 ^ (b + 1)) as HB2
    by (rewrite pot2_inteiro by lia; by rewrite <- Zlt_Qlt).
  assert ((n # d) * inject_Z (Z.pos d) == inject_Z n) as Hnd.
  { rewrite Qmake_Qdiv. field. discriminate. }
  pose proof (pot2_pos b) as Pb. pose proof (pot2_pos (a - b)) as Pab.
  pose proof (pot2_pos (a - b - 1)) as Pab1.
  assert (2 ^ (a + 1) == 2 ^ (a - b + 1) * 2 ^ b) as E1
    by (rewrite <- pot2_soma; f_equiv; lia).
  assert (2 ^ a == 2 ^ (a - b - 1) * 2 ^ (b + 1)) as E2
    by (rewrite <- pot2_soma; f_equiv; lia).
  assert (2 ^ (a - b - 1 + 1) == 2 ^ (a - b)) as E3 by (f_equiv; lia).
  set (x := n # d) in *. set (D := inject_Z (Z.pos d)) in *.
  set (N := inject_Z n) in *.
  assert (x < 2 ^ (a - b + 1)) as Hup.
  { apply (Qmult_lt_r _ _ (2 ^ b)); [done |]. rewrite <- E1.
    apply Qle_lt_trans with N; [| done]. rewrite <- Hnd.
    apply Qmult_le_l; [done | done]. }
  assert (2 ^ (a - b - 1) <= x) as Hdown.
  { apply (Qmult_le_r _ _ (2 ^ (b + 1))); [apply pot2_pos |]. rewrite <- E2.
    apply Qle_trans with N; [done |]. rewrite <- Hnd.
    apply Qmult_le_l; [done |]. by apply Qlt_le_weak. }
  destruct (Qle_bool (2 ^ (a - b)) x) eqn:Hc.
  - apply Qle_bool_iff in Hc. done.
  - split; [done |]. rewrite E3. apply Qnot_le_lt. intros H.
    apply Qle_bool_iff in H. congruence.
Qed.


Lemma log2_chao_mono q1 q2 :
  0 < q1 → q1 <= q2 → (log2_chao q1 ≤ log2_chao q2)%Z.
Proof.
  intros H1 H12.
  destruct (log2_chao_spec q1 H1) as [L1 _].
  destruct (log2_chao_spec q2) as [_ U2]; [by eapply Qlt_le_trans |].
  destruct (Z_le_gt_dec (log2_chao q1) (log2_chao q2)) as [|Hgt]; [done |].
  pose proof (pot2_mono (log2_chao q2 + 1) (log2_chao q1) ltac:(lia)).
  lra.
Qed.

Lemma expoente_ulp_mono q1 q2 :
  0 < q1 → q1 <= q2 → (expoente_ulp q1 ≤ expoente_ulp q2)%Z.
Proof.
  intros H1 H12. pose proof (log2_chao_mono q1 q2 H1 H12).
  unfold expoente_ulp. lia.
Qed.

Lemma inteiro_proximo_chao m :
  inteiro_proximo m = Qfloor m ∨ inteiro_proximo m = (Qfloor m + 1)%Z.
Proof.
  unfold inteiro_proximo.
  destruct (_ ?= _); [destruct (Z.even _) | |]; auto.
Qed.

Lemma inteiro_proximo_baixo k m :
  inject_Z k <= m → (k ≤ inteiro_proximo m)%Z.
Proof.
  intros H. apply Qfloor_resp_le in H. rewrite Qfloor_Z in H.
  destruct (inteiro_proximo_chao m) as [-> | ->]; lia.
Qed.

Lemma inteiro_proximo_cima k m :
  m <= inject_Z k → (inteiro_proximo m ≤ k)%Z.
Proof.
  intros H. pose proof (Qfloor_resp_le _ _ H) as Hf. rewrite Qfloor_Z in Hf.
  destruct (Z.eq_dec (Qfloor m) k) as [Heq|Hne].
  - unfold inteiro_proximo. rewrite Heq.
    destruct (Qcompare_spec (m - inject_Z k) (1 # 2)); [lra | lia | lra].
  - destruct (inteiro_proximo_chao m) as [-> | ->]; lia.
Qed.

Lemma inteiro_proximo_mono m1 m2 :
  m1 <= m2 → (inteiro_proximo m1 ≤ inteiro_proximo m2)%Z.
Proof.
  intros H. pose proof (Qfloor_resp_le _ _ H) as Hf.
  destruct (Z.eq_dec (Qfloor m1) (Qfloor m2)) as [Heq|Hne].
  - unfold inteiro_proximo. rewrite Heq.
    destruct (Qcompare_spec (m1 - inject_Z (Qfloor m2)) (1 # 2)),
      (Qcompare_spec (m2 - inject_Z (Qfloor m2)) (1 # 2));
      try lia; try lra; destruct (Z.even _); lia.
  - destruct (inteiro_proximo_chao m1) as [-> | ->],
      (inteiro_proximo_chao m2) as [-> | ->]; lia.
Qed.

(** The nearest value of a positive number is not negative. *)
Lemma mais_proximo_nao_negativo q : 0 < q → 0 <= mais_proximo q.
Proof.
  intros Hq. unfold mais_proximo. pose proof (pot2_pos (expoente_ulp q)) as Pu.
  set (u := 2 ^ expoente_ulp q) in *.
  assert (0 ≤ inteiro_proximo (q / u))%Z as H.
  { apply inteiro_proximo_baixo. apply Qle_shift_div_l; [done |].
    change (0 * u <= q). lra. }
  rewrite Zle_Qle in H. apply Qmult_le_0_compat; [done | lra].
Qed.

(** Rounding keeps the order of the positive numbers. *)
Lemma mais_proximo_mono q1 q2 :
  0 < q1 → q1 <= q2 → mais_proximo q1 <= mais_proximo q2.
Proof.
  intros H1 H12. assert (0 < q2) as H2 by lra.
  pose proof (expoente_ulp_mono q1 q2 H1 H12) as Hp.
  pose proof (log2_chao_mono q1 q2 H1 H12) as He.
  destruct (log2_chao_spec q1 H1) as [L1 U1].
  destruct (log2_chao_spec q2 H2) as [L2 U2].
  unfold mais_proximo.
  pose proof (pot2_pos (expoente_ulp q1)) as P1.
  pose proof (pot2_pos (expoente_ulp q2)) as P2.
  destruct (Z.eq_dec (expoente_ulp q1) (expoente_ulp q2)) as [Heq|Hne].
  - rewrite Heq in *. set (u := 2 ^ expoente_ulp q2) in *.
    assert (inteiro_proximo (q1 / u) ≤ inteiro_proximo (q2 / u))%Z as H.
    { apply inteiro_proximo_mono. apply Qle_shift_div_l; [done |].
      assert (q1 / u * u == q1) as -> by (field; lra). done. }
    rewrite Zle_Qle in H. apply Qmult_le_compat_r; [done | lra].
  - assert (expoente_ulp q2 = log2_chao q2 - 52)%Z as Hp2
      by (unfold expoente_ulp in *; lia).
    assert (log2_chao q1 + 1 ≤ log2_chao q2)%Z as He'
      by (unfold expoente_ulp in *; lia).
    set (e2 := log2_chao q2) in *.
    apply Qle_trans with (2 ^ e2).
    + set (k := (e2 - expoente_ulp q1)%Z).
      assert (0 ≤ k)%Z as Hk by (unfold k, expoente_ulp in *; lia).
      assert (2 ^ e2 == inject_Z (2 ^ k) * 2 ^ expoente_ulp q1) as ->.
      { rewrite <- pot2_inteiro, <- pot2_soma by done. f_equiv. unfold k. lia. }
      set (u := 2 ^ expoente_ulp q1) in *.
      apply Qmult_le_compat_r; [| lra]. rewrite <- Zle_Qle.
      apply inteiro_proximo_cima. apply Qle_shift_div_r; [done |].
      rewrite <- pot2_inteiro by done.
      assert (2 ^ k * u == 2 ^ e2) as ->.
      { unfold u. rewrite <- pot2_soma. f_equiv. unfold k. lia. }
      pose proof (pot2_mono (log2_chao q1 + 1) e2 He'). lra.
    + assert (2 ^ e2 == inject_Z (2 ^ 52) * 2 ^ expoente_ulp q2) as E.
      { rewrite <- pot2_inteiro, <- pot2_soma by done. f_equiv. lia. }
      rewrite E. set (u := 2 ^ expoente_ulp q2) in *.
      apply Qmult_le_compat_r; [| lra]. rewrite <- Zle_Qle.
      apply inteiro_proximo_baixo. apply Qle_shift_div_l; [done |]. lra.
Qed.

(** A value of the format below a number stays below its rounding. *)
Lemma mais_proximo_cobre z a :
  0 < a → a <= z → mais_proximo z <= a → mais_proximo z <= mais_proximo a.
Proof.
  intros Ha Haz Hc.
  pose proof (expoente_ulp_mono a z Ha Haz) as Hp.
  unfold mais_proximo in *.
  pose proof (pot2_pos (expoente_ulp a)) as Pa.
  set (k := (expoente_ulp z - expoente_ulp a)%Z).
  assert (2 ^ expoente_ulp z == inject_Z (2 ^ k) * 2 ^ expoente_ulp a) as E.
  { rewrite <- pot2_inteiro, <- pot2_soma by (unfold k; lia).
    f_equiv. unfold k. lia. }
  set (M := inteiro_proximo (z / 2 ^ expoente_ulp z)) in *.
  set (u := 2 ^ expoente_ulp a) in *.
  rewrite E in Hc |- *. rewrite Qmult_assoc, <- inject_Z_mult in Hc |- *.
  apply Qmult_le_compat_r; [| lra]. rewrite <- Zle_Qle.
  apply inteiro_proximo_baixo. apply Qle_shift_div_l; done.
Qed.

End Formato.

(** ** Numbers *)



Lemma arredondar_positivo_casos q :
  (arredondar_positivo q = Inf true) ∨
  (arredondar_positivo q = Fin (Q2Qc (mais_proximo q))).
Proof. unfold arredondar_positivo. destruct (Qle_bool _ _); auto. Qed.

Lemma Q2Qc_le q1 q2 : (q1 <= q2)%Q → Q2Qc q1 ≤ Q2Qc q2.
Proof. intros H. unfold Qcle. cbn [this Q2Qc]. by rewrite !Qred_correct. Qed.

(** The rounding of a number that is not negative is not negative. *)
Lemma arredondar_nao_negativo a :
  0 ≤ a → f_menor_igual zero (arredondar a) = true.
Proof.
  intros Ha. unfold arredondar. destruct (0 ?= a) eqn:Hc.
  - done.
  - apply Qclt_alt in Hc.
    destruct (arredondar_positivo_casos a) as [-> | ->]; [done |].
    cbn [f_menor_igual zero]. apply bool_decide_eq_true_2.
    change 0 with (Q2Qc 0%Q). apply Q2Qc_le.
    by apply mais_proximo_nao_negativo.
  - apply Qcgt_alt in Hc. by destruct (Qclt_not_le _ _ Hc).
Qed.

(** The rounding of a number that is not positive is not positive. *)
Lemma arredondar_nao_positivo a :
  a ≤ 0 → f_menor_igual (arredondar a) zero = true.
Proof.
  intros Ha. unfold arredondar. destruct (0 ?= a) eqn:Hc.
  - done.
  - apply Qclt_alt in Hc. by destruct (Qclt_not_le _ _ Hc).
  - apply Qcgt_alt in Hc.
    assert (0 < - a)%Q as Hn.
    { unfold Qclt in Hc. change (this 0) with 0%Q in Hc. lra. }
    destruct (arredondar_positivo_casos (- a)) as [-> | ->]; [done |].
    cbn [f_oposto f_menor_igual zero]. apply bool_decide_eq_true_2.
    set (m := mais_proximo _).
    assert (0 <= m)%Q as Hm by (by apply mais_proximo_nao_negativo).
    unfold Qcle. cbn [this Qcopp Q2Qc]. rewrite !Qred_correct.
    change (this 0) with 0%Q. lra.
Qed.

(** A positive float that a number covers is covered by the float of that
    number. *)
Lemma arredondar_cobre z c a :
  arredondar z = Fin c → 0 < c → c ≤ a →
  f_menor_igual (Fin c) (arredondar a) = true.
Proof.
  intros Hz Hc Hca.
  assert (0 < z) as Hz0.
  { apply Qcnot_le_lt. intros Hle.
    pose proof (arredondar_nao_positivo z Hle) as H. rewrite Hz in H.
    cbn [f_menor_igual zero] in H. apply bool_decide_eq_true_1 in H.
    by destruct (Qclt_not_le _ _ Hc). }
  assert (0 < a) as Ha0 by (by apply Qclt_le_trans with c).
  unfold arredondar in Hz |- *.
  rewrite (proj1 (Qclt_alt 0 z) Hz0) in Hz.
  rewrite (proj1 (Qclt_alt 0 a) Ha0).
  destruct (arredondar_positivo_casos z) as [Hz'|Hz']; rewrite Hz' in Hz;
    [done |]. injection Hz as <-.
  destruct (arredondar_positivo_casos a) as [-> | ->]; [done |].
  cbn [f_menor_igual]. apply bool_decide_eq_true_2. apply Q2Qc_le.
  assert (mais_proximo z <= a)%Q as Hva.
  { unfold Qcle in Hca. cbn [this Q2Qc] in Hca.
    by rewrite Qred_correct in Hca. }
  destruct (Qlt_le_dec a z) as [Hlt|Hle].
  - apply mais_proximo_cobre; [done | by apply Qlt_le_weak | done].
  - apply mais_proximo_mono; done.
Qed.

Lemma para_float_nao_negativo q q' :
  f_menor_igual zero q → para_float q = Ret q' → f_menor_igual zero q'.
Proof.
  destruct q as [a|[]|]; try done.
  - intros Ha%bool_decide_unpack. cbn [para_float].
    pose proof (arredondar_nao_negativo a Ha) as H.
    destruct (arredondar a) as [b|s|]; intros [= <-]; by rewrite H.
  - by intros _ [= <-].
Qed.

(** Adding a finite positive amount to a quantity that is not negative. *)
Lemma f_soma_nao_negativa q a :
  f_menor_igual zero q → f_menor_igual (Fin a) zero = false →
  f_menor_igual zero (f_soma q (Fin a)).
Proof.
  destruct q as [b|[]|]; try (simpl; done).
  intros Hb%bool_decide_unpack Ha%bool_decide_eq_false. cbn [f_soma].
  rewrite arredondar_nao_negativo; [done |].
  apply Qcplus_nonneg_nonneg; [done |].
  by apply Qclt_le_weak, Qclt_nge.
Qed.

(** Taking from the float of the quantity in stock an amount of the format
    that the quantity covers. *)
Lemma f_subtrai_nao_negativa q q' z c :
  f_menor_igual zero q → para_float q = Ret q' →
  arredondar z = Fin c → f_menor_igual (Fin c) zero = false →
  f_menor q (Fin c) = false →
  f_menor_igual zero (f_subtrai q' (Fin c)).
Proof.
  intros Hq Hq' Hz Hc%bool_decide_eq_false Hlt.
  assert (0 < c) as Hc0 by (by apply Qcnot_le_lt).
  destruct q as [a|[]|]; simpl in Hq, Hq', Hlt; try done.
  - apply bool_decide_eq_false, Qcnot_lt_le in Hlt.
    pose proof (arredondar_cobre z c a Hz Hc0 Hlt) as Hcob.
    destruct (arredondar a) as [a'|s|]; cbn [f_menor_igual] in Hcob;
      simplify_eq.
    apply bool_decide_eq_true_1 in Hcob. cbn [f_subtrai f_soma f_oposto].
    rewrite arredondar_nao_negativo; [done |].
    by apply (proj1 (Qcle_minus_iff c a')).
  - by simplify_eq.
Qed.

Lemma py_eq_eq a b : py_eq a b → a = b.
Proof.
  destruct a as [|x|s|t], b as [|y|s'|t']; simpl; try done;
    try by intros ?%bool_decide_unpack.
  destruct x as [a|[]|], y as [b|[]|]; simpl; try done;
    intros ?%bool_decide_unpack; congruence.
Qed.

Section Formato_de_validar.

Variable float_de_texto : string → option flutuante.

(** A finite amount that [validar_float] returns is a value of the
    format. *)
Lemma validar_float_formato v c :
  validar_float float_de_texto v = Ret (Some (Fin c)) →
  ∃ z, arredondar z = Fin c.
Proof.
  destruct v as [|[a|s|]|s|t]; simpl; try done.
  - destruct (arredondar a) as [b|s|] eqn:Ha; simpl; try done.
    intros [= <-]. eauto.
  - destruct (float_de_texto s) as [[a|s'|]|]; simpl; try done.
    intros [= H]. eauto.
Qed.

End Formato_de_validar.


(** ** Invariants of the working set *)

Lemma quantidade_ok_spec (i : insumo) :
  quantidade_ok i ↔
  ∃ q, i !! "quantidade" = Some (VNum q) ∧ f_menor_igual zero q.
Proof.
  unfold quantidade_ok. split.
  - destruct (i !! "quantidade") as [[|q| |]|]; try done. eauto.
  - by intros (q & -> & Hq).
Qed.

Lemma distintos_cons o cs :
  distintos (o :: cs) ↔
  Forall (λ o', ¬ mesmo_codigo o o') cs ∧ distintos cs.
Proof.
  cbn [distintos]. rewrite andb_True, forallb_True.
  apply and_iff_compat_r, Forall_proper; [| done].
  intros o'. apply negb_True.
Qed.

Lemma distintos_app_singular cs o :
  distintos cs → Forall (λ o', ¬ mesmo_codigo o' o) cs →
  distintos (cs ++ [o]).
Proof.
  induction cs as [|o' cs IH]; [done |].
  rewrite <- app_comm_cons, !distintos_cons.
  intros [Hf Hd] [Ho Hcs]%Forall_cons. split; [| by apply IH].
  apply Forall_app. split; [done |]. by constructor.
Qed.

Lemma distintos_delete cs n : distintos cs → distintos (delete n cs).
Proof.
  revert n. induction cs as [|o cs IH]; intros n; [done |].
  rewrite distintos_cons. intros [Hf Hd]. destruct n as [|n]; [done |].
  cbn [delete list_delete]. rewrite distintos_cons.
  split; [by apply Forall_delete | by apply IH].
Qed.

Section Invariantes.

Variable float_de_texto : string → option flutuante.

Lemma quantidade_ok_union (d r : insumo) :
  d !! "quantidade" = None ∨ quantidade_ok d →
  quantidade_ok r → quantidade_ok (d ∪ r).
Proof.
  rewrite !quantidade_ok_spec.
  intros [Hd|(q & Hq & Hle)] (q' & Hq' & Hle').
  - exists q'. by rewrite lookup_union_r.
  - exists q. split; [by apply lookup_union_Some_l | done].
Qed.

Lemma passo_quantidade op e b e' :
  conserva_quantidade float_de_texto op →
  executar float_de_texto op e = Ret (b, e') →
  Forall (λ i, quantidade_ok i) (insumos e) →
  Forall (λ i, quantidade_ok i) (insumos e').
Proof.
  intros Hop H Hinv. destruct op as [i|c d|c|c v|c v]; simpl in Hop, H.
  - apply adicionar_insumo_Ret in H as [[_ ->]|(_ & -> & _)]; [done |].
    apply Forall_app. split; [done | by repeat constructor].
  - apply atualizar_insumo_Ret in H
      as [[_ ->]|(_ & n & r & Hp & -> & _)]; [done |].
    apply procurar_Some in Hp as (Hn & _).
    apply Forall_insert; [done |]. apply quantidade_ok_union; [done |].
    by apply (Forall_lookup_1 _ _ _ _ Hinv Hn).
  - apply remover_insumo_Ret in H
      as [[_ ->]|(_ & n & r & Hp & -> & _)]; [done |].
    by apply Forall_delete.
  - apply registrar_entrada_Ret in H
      as [[_ [m ->]]|(_ & n & r & q & q' & x & Hp & Hv & Hx & Hq & Hq' & -> & _)];
      [done |].
    apply procurar_Some in Hp as (Hn & _).
    apply Forall_insert; [done |].
    pose proof (Forall_lookup_1 _ _ _ _ Hinv Hn) as Hr.
    apply quantidade_ok_spec in Hr as (q0 & Hq0 & Hle).
    destruct (Hop x Hv) as [a ->]. simplify_eq. apply quantidade_ok_spec.
    exists (f_soma q' (Fin a)). split; [by rewrite lookup_insert_eq |].
    apply f_soma_nao_negativa; [| done].
    by eapply para_float_nao_negativo.
  - apply registrar_saida_Ret in H
      as [[_ [m ->]]|(_ & n & r & q & q' & x & Hp & Hv & Hx0 & Hx & Hq & Hq'
                      & -> & _)];
      [done |].
    apply procurar_Some in Hp as (Hn & _).
    apply Forall_insert; [done |].
    pose proof (Forall_lookup_1 _ _ _ _ Hinv Hn) as Hr.
    apply quantidade_ok_spec in Hr as (q0 & Hq0 & Hle).
    destruct (Hop x Hv) as [a ->]. simplify_eq. apply quantidade_ok_spec.
    exists (f_subtrai q' (Fin a)). split; [by rewrite lookup_insert_eq |].
    destruct (validar_float_formato _ _ _ Hv) as [z Hz].
    by eapply f_subtrai_nao_negativa.
Qed.

Lemma codigos_insert l n (i r : insumo) :
  l !! n = Some r → i !! "codigo" = r !! "codigo" →
  codigos (<[n := i]> l) = codigos l.
Proof.
  intros Hn Hc. unfold codigos. rewrite list_fmap_insert.
  apply list_insert_id. by rewrite list_lookup_fmap, Hn, Hc.
Qed.

Lemma passo_codigos op e b e' :
  conserva_codigo op → executar float_de_texto op e = Ret (b, e') →
  distintos (codigos (insumos e)) → distintos (codigos (insumos e')).
Proof.
  intros Hop H Hinv. destruct op as [i|c d|c|c v|c v]; simpl in Hop, H.
  - apply adicionar_insumo_Ret in H
      as [[_ ->]|(_ & -> & _ & c & Hc & Hp)]; [done |].
    unfold codigos in *. rewrite fmap_app. simpl. rewrite Hc.
    apply distintos_app_singular; [done |].
    apply Forall_fmap. eapply Forall_impl; [by apply procurar_None |].
    intros r [_ Hr]. unfold tem_o_codigo in Hr. simpl.
    by destruct (r !! "codigo").
  - apply atualizar_insumo_Ret in H
      as [[_ ->]|(_ & n & r & Hp & -> & _)]; [done |].
    apply procurar_Some in Hp as (Hn & Hc & _).
    erewrite codigos_insert; [done | done |].
    destruct Hop as [Hd|Hd].
    + by rewrite lookup_union_r.
    + rewrite (lookup_union_Some_l _ _ _ _ Hd).
      unfold tem_o_codigo in Hc. destruct (r !! "codigo") as [v|]; [| done].
      by apply py_eq_eq in Hc as ->.
  - apply remover_insumo_Ret in H
      as [[_ ->]|(_ & n & r & Hp & -> & _)]; [done |].
    unfold codigos. rewrite list_fmap_delete. by apply distintos_delete.
  - apply registrar_entrada_Ret in H
      as [[_ [m ->]]|(_ & n & r & q & q' & x & Hp & _ & Hx & Hq & _ & -> & _)];
      [done |].
    apply procurar_Some in Hp as (Hn & _).
    erewrite codigos_insert; [done | done |]. by rewrite lookup_insert_ne.
  - apply registrar_saida_Ret in H
      as [[_ [m ->]]|(_ & n & r & q & q' & x & Hp & _ & _ & Hx & Hq & _ & ->
                      & _)];
      [done |].
    apply procurar_Some in Hp as (Hn & _).
    erewrite codigos_insert; [done | done |]. by rewrite lookup_insert_ne.
Qed.

End Invariantes.

(** ** A pass without faults *)

Lemma interagir_sem_falhas e :
  sem_falhas e → ∃ e', interagir e = Ret (false, e') ∧ sao e e' (tabela e).
Proof.
  unfold sem_falhas, interagir. intros H.
  destruct (falhas e) as [|f fs] eqn:Hf.
  - exists e. split; [done |]. split_and!; [done | done |].
    unfold sem_falhas. by rewrite Hf.
  - apply list.Forall_cons in H as [-> H]. eexists. split; [done |].
    split_and!; done.
Qed.

Lemma conectar_sem_falhas e :
  sem_falhas e → ∃ e', conectar e = Ret (true, e') ∧ sao e e' (tabela e).
Proof.
  intros H. destruct (interagir_sem_falhas e H) as (e1 & H1 & L & T & F).
  unfold conectar. rewrite (ligar_passo _ _ _ _ _ H1). passos.
  eexists. split; [done |]. split_and!; [| done | done].
  eapply mesmo_local_trans; [exact L | done].
Qed.

Lemma executar_query_sem_falhas sql e :
  sem_falhas e →
  ∃ e', executar_query sql e = Ret (sql (tabela e), e') ∧ sao e e' (tabela e).
Proof.
  intros H. destruct (conectar_sem_falhas e H) as (e1 & H1 & L1 & T1 & F1).
  destruct (interagir_sem_falhas e1 F1) as (e2 & H2 & L2 & T2 & F2).
  unfold executar_query. rewrite (ligar_passo _ _ _ _ _ H1). cbn [negb].
  rewrite (ligar_passo _ _ _ _ _ H2). unfold ler.
  eexists. split; [by rewrite T2, T1 |]. split_and!; [| congruence | done].
  by eapply mesmo_local_trans.
Qed.

Lemma executar_dml_sem_falhas sql e :
  sem_falhas e →
  ∃ e', executar_dml sql e = Ret (bool_decide (is_Some (sql (tabela e))), e') ∧
        sao e e' (default (tabela e) (sql (tabela e))).
Proof.
  intros H. destruct (conectar_sem_falhas e H) as (e1 & H1 & L1 & T1 & F1).
  destruct (interagir_sem_falhas e1 F1) as (e2 & H2 & L2 & T2 & F2).
  unfold executar_dml. rewrite (ligar_passo _ _ _ _ _ H1). cbn [negb].
  rewrite (ligar_passo _ _ _ _ _ H2). passos. rewrite T2, T1.
  assert (mesmo_local e e2) as L by by eapply mesmo_local_trans.
  destruct (sql (tabela e)) as [t'|]; passos.
  - eexists. split; [done |]. split_and!; [| done | done].
    eapply mesmo_local_trans; [exact L | done].
  - eexists. split; [done |]. split_and!; [done | simpl; congruence | done].
Qed.

Lemma campos_sem_codigo (i : insumo) : campos i !! "codigo" = None.
Proof.
  apply map_lookup_filter_None. right. intros v _ Hin. simpl in Hin.
  unfold campos_permitidos in Hin.
  repeat (apply elem_of_cons in Hin as [?|Hin]; [done |]).
  by apply elem_of_nil in Hin.
Qed.

Lemma campos_linha_nova (i : insumo) : campos i ∪ linha_nova i = linha_nova i.
Proof.
  apply map_subseteq_union, map_subseteq_spec. intros k v Hk.
  apply map_lookup_filter_Some in Hk as [Hi Hin]. simpl in Hin.
  unfold campos_permitidos in Hin. unfold linha_nova, get.
  repeat (apply elem_of_cons in Hin as [->|Hin];
          [rewrite Hi; by simplify_map_eq |]).
  by apply elem_of_nil in Hin.
Qed.

Lemma inserir_recusado i e c :
  i !! "codigo" = Some c → (∀ a, c ≠ VNum (Fin a)) → sem_falhas e →
  ∃ e', (OracleGateway.inserir_insumo i ;; retorna tt) e = Ret (tt, e') ∧
        sao e e' (tabela e).
Proof.
  intros Hc Hn F. unfold OracleGateway.inserir_insumo.
  edestruct executar_dml_sem_falhas as (e2 & H2 & L2 & T2 & F2); [exact F |].
  rewrite (ligar_passo _ _ _ _ _ H2).
  eexists. split; [done |]. split_and!; [done | | done].
  rewrite T2. unfold sql_insert, get. rewrite lookup_insert_eq, Hc.
  cbn [default]. destruct c as [|[a| |]| |]; try done. by destruct (Hn a).
Qed.

Lemma sincronizar_insumo_sem_falhas i e :
  tem_codigo i → sem_falhas e →
  ∃ e', sincronizar_insumo i e = Ret (tt, e') ∧
        sao e e' (upsert i (tabela e)).
Proof.
  intros [c Hc] H. unfold sincronizar_insumo, item, OracleGateway.buscar_insumo.
  rewrite Hc. passos.
  destruct (executar_query_sem_falhas (sql_select c) e H)
    as (e1 & H1 & L1 & T1 & F1).
  rewrite (ligar_passo _ _ _ _ _ H1). passos. unfold upsert. rewrite Hc.
  assert ((∀ a, c ≠ VNum (Fin a)) →
    ∃ e', (OracleGateway.inserir_insumo i ;; retorna tt) e1 = Ret (tt, e') ∧
          sao e e' (tabela e)) as Hrec.
  { intros Hn. destruct (inserir_recusado i e1 c Hc Hn F1)
      as (e2 & H2 & L2 & T2 & F2).
    exists e2. split; [done |]. split_and!; [| congruence | done].
    by eapply mesmo_local_trans. }
  destruct c as [|[c| |]|s|d]; cbn [sql_select verdadeiro negb];
    [by apply Hrec | | by apply Hrec | by apply Hrec | by apply Hrec
     | by apply Hrec].
  clear Hrec. destruct (tabela e !! c) as [linha|] eqn:Hl.
  - (* a row is there: update *)
    cbn [verdadeiro]. rewrite bool_decide_eq_false_2 by apply insert_non_empty.
    cbn [negb]. passos. unfold OracleGateway.atualizar_insumo.
    fold (campos i). case_bool_decide as Hvazio.
    + passos. eexists. split; [done |].
      split_and!; [done | | done]. rewrite T1.
      apply map_eq. intros k. rewrite lookup_partial_alter.
      case_decide; [| done]. subst k. rewrite Hl. unfold gravar_linha.
      by rewrite Hvazio, (left_id_L ∅ (∪)).
    + destruct (executar_dml_sem_falhas
        (sql_update (<["codigo" := VNum (Fin c)]> (campos i))) e1 F1)
        as (e2 & H2 & L2 & T2 & F2).
      rewrite (ligar_passo _ _ _ _ _ H2).
      eexists. split; [done |]. split_and!; [| | done].
      { by eapply mesmo_local_trans. }
      rewrite T2, T1. unfold sql_update, get. rewrite lookup_insert_eq.
      cbn [default id]. rewrite delete_insert_id by apply campos_sem_codigo.
      apply map_eq. intros k. rewrite lookup_alter, lookup_partial_alter.
      case_decide; [| done]. subst k. by rewrite Hl.
  - (* no row: insert *)
    cbn [verdadeiro negb]. unfold OracleGateway.inserir_insumo.
    edestruct executar_dml_sem_falhas as (e2 & H2 & L2 & T2 & F2);
      [exact F1 |].
    rewrite (ligar_passo _ _ _ _ _ H2).
    eexists. split; [done |]. split_and!; [| | done].
    { by eapply mesmo_local_trans. }
    rewrite T2, T1. unfold sql_insert. unfold get at 1.
    rewrite lookup_insert_eq. cbn [default id]. unfold get at 1. rewrite Hc.
    cbn [default id]. rewrite Hl. cbn [default id].
    rewrite delete_insert_id by done.
    apply map_eq. intros k. rewrite lookup_insert, lookup_partial_alter.
    case_decide; [| done]. subst k. by rewrite Hl.
Qed.

Lemma para_cada_sem_falhas l e :
  Forall tem_codigo l → sem_falhas e →
  ∃ e', para_cada sincronizar_insumo l e = Ret (tt, e') ∧
        sao e e' (passagem l (tabela e)).
Proof.
  intros Hl. revert e. induction Hl as [|i l Hi _ IH]; intros e H.
  - exists e. split; [done |]. by split_and!.
  - destruct (sincronizar_insumo_sem_falhas i e Hi H)
      as (e1 & H1 & L1 & T1 & F1).
    destruct (IH e1 F1) as (e2 & H2 & L2 & T2 & F2).
    exists e2. cbn [para_cada]. rewrite (ligar_passo _ _ _ _ _ H1).
    split; [done |]. split_and!; [| | done].
    + by eapply mesmo_local_trans.
    + rewrite T2, T1. done.
Qed.

Lemma _sincronizar_sem_falhas e :
  Forall tem_codigo (insumos e) → sem_falhas e →
  ∃ e', _sincronizar e = Ret (tt, e') ∧
        insumos e' = insumos e ∧ arquivo e' = gravado (insumos e) ∧
        tabela e' = passagem (insumos e) (tabela e) ∧ sem_falhas e'.
Proof.
  intros Hwf H.
  destruct (conectar_sem_falhas e H) as (e1 & H1 & (I1 & A1 & R1) & T1 & F1).
  rewrite <- I1 in Hwf.
  destruct (para_cada_sem_falhas _ e1 Hwf F1)
    as (e2 & H2 & (I2 & A2 & R2) & T2 & F2).
  unfold _sincronizar. rewrite (ligar_passo _ _ _ _ _ H1). passos.
  rewrite (ligar_passo _ _ _ _ _ H2). unfold desconectar. passos.
  cbn [insumos com_connection].
  rewrite (ligar_passo _ _ _ _ _
             (proj2 (salvar_insumos_Ret _ _ _ _) (conj eq_refl eq_refl))).
  eexists. split; [done |]. simpl.
  rewrite I2, I1, T2, T1, I1. split_and!; done.
Qed.

Lemma _sincronizar_recusado e fs :
  falhas e = true :: fs →
  ∃ e', _sincronizar e = Ret (tt, e') ∧
        insumos e' = insumos e ∧ arquivo e' = gravado (insumos e) ∧
        tabela e' = tabela e ∧ falhas e' = fs.
Proof.
  intros Hf. unfold _sincronizar, conectar.
  assert (interagir e = Ret (true, com_falhas fs e)) as Hi.
  { unfold interagir. by rewrite Hf. }
  rewrite ligar_assoc, (ligar_passo _ _ _ _ _ Hi). passos.
  cbn [insumos com_falhas].
  rewrite (ligar_passo _ _ _ _ _
             (proj2 (salvar_insumos_Ret _ _ _ _) (conj eq_refl eq_refl))).
  eexists. split; [done |]. done.
Qed.

(** *** The pass on the table is idempotent *)

Lemma upsert_lookup i t (c : Qc) :
  upsert i t !! c
  = if decide (i !! "codigo" = Some (VNum (Fin c)))
    then gravar_linha i (t !! c) else t !! c.
Proof.
  unfold upsert. destruct (i !! "codigo") as [[|[c'| |]|s|d]|] eqn:Hc;
    try by rewrite decide_False.
  rewrite lookup_partial_alter. case_decide; case_decide; simplify_eq; done.
Qed.

Lemma passagem_lookup l t (c : Qc) :
  passagem l t !! c = linha_apos c l (t !! c).
Proof.
  unfold passagem. revert t.
  induction l as [|i l IH]; intros t; [done |].
  cbn [foldl linha_apos]. by rewrite IH, upsert_lookup.
Qed.

Lemma linha_apos_Some c l linha :
  linha_apos c l (Some linha) = Some (escritos c l ∪ linha).
Proof.
  revert linha. induction l as [|i l IH]; intros linha; cbn [linha_apos escritos].
  - by rewrite (left_id_L ∅ (∪)).
  - case_decide.
    + unfold gravar_linha. by rewrite IH, (assoc_L (∪)).
    + by rewrite IH, (right_id_L ∅ (∪)).
Qed.

Lemma linha_apos_None c l :
  linha_apos c l None = None ∨
  ∃ linha, linha_apos c l None = Some (escritos c l ∪ linha).
Proof.
  induction l as [|i l IH]; cbn [linha_apos escritos]; [by left |].
  case_decide.
  - right. exists (linha_nova i). unfold gravar_linha.
    rewrite linha_apos_Some, <- (assoc_L (∪)). by rewrite campos_linha_nova.
  - by rewrite (right_id_L ∅ (∪)).
Qed.

Lemma linha_apos_idempotente c l o :
  linha_apos c l (linha_apos c l o) = linha_apos c l o.
Proof.
  assert (∀ linha, linha_apos c l (Some (escritos c l ∪ linha))
                   = Some (escritos c l ∪ linha)) as Hs.
  { intros linha. rewrite linha_apos_Some.
    by rewrite (assoc_L (∪)), (idemp_L (∪)). }
  destruct o as [linha|].
  - rewrite linha_apos_Some. apply Hs.
  - destruct (linha_apos_None c l) as [Hn|[linha Hn]]; rewrite Hn.
    + exact Hn.
    + apply Hs.
Qed.

Lemma passagem_idempotente l t :
  passagem l (passagem l t) = passagem l t.
Proof.
  apply map_eq. intros c.
  by rewrite !passagem_lookup, linha_apos_idempotente.
Qed.

(** * The claims *)

(** C8: adding a record whose code is already in the working set is refused
    with the message of a duplicate code and changes nothing else, the
    working set and both stores included; adding a record whose code is not
    there succeeds and puts the record at the end of the working set. *)
Theorem adicionar_insumo_duplicado_ou_novo e i c :
  Forall tem_codigo (insumos e) → i !! "codigo" = Some c →
  ((∃ r, r ∈ insumos e ∧ tem_o_codigo c r) →
   adicionar_insumo i e = Ret (false, recusado CodigoJaExiste e)) ∧
  ((∀ r, r ∈ insumos e → ¬ tem_o_codigo c r) →
   ∃ e', adicionar_insumo i e = Ret (true, e') ∧
         insumos e' = insumos e ++ [i]).
Proof.
  intros Hwf Hc. split.
  - intros (r & Hr & Hrc). eapply adicionar_insumo_duplicado; try done.
    by eapply primeiro_elem_of.
  - intros Hnovo. apply primeiro_None in Hnovo.
    destruct (adicionar_insumo_novo e i c) as (e' & He & Hi & _); eauto.
Qed.

(** C7: updating the record with a given code overwrites, in that record,
    exactly the fields of the partial field set; every other field keeps its
    value and every other record is unchanged. *)
Theorem atualizar_insumo_mescla e c d n i :
  Forall tem_codigo (insumos e) → primeiro c (insumos e) = Some (n, i) →
  ∃ e' i', atualizar_insumo c d e = Ret (true, e') ∧
    insumos e' !! n = Some i' ∧
    (∀ k v, d !! k = Some v → i' !! k = Some v) ∧
    (∀ k, d !! k = None → i' !! k = i !! k) ∧
    (∀ m, m ≠ n → insumos e' !! m = insumos e !! m) ∧
    length (insumos e') = length (insumos e).
Proof.
  intros Hwf Hp.
  destruct (atualizar_insumo_achado e c d n i Hwf Hp) as (e' & He & Hi & _).
  apply primeiro_Some in Hp as (Hn & _).
  exists e', (d ∪ i). rewrite Hi. split_and!.
  - done.
  - apply list_lookup_insert_eq. by eapply lookup_lt_Some.
  - intros k v Hk. by apply lookup_union_Some_l.
  - intros k Hk. by apply lookup_union_r.
  - intros m Hm. by apply list_lookup_insert_ne.
  - apply length_insert.
Qed.

Section Transacoes_claims.

Variable float_de_texto : string → option flutuante.


(** C9: a mutation that returns the failure outcome has printed one error
    message and done nothing else: the working set, the local file, the
    remote table, the connection and the schedule of the gateway are as
    before, so no synchronisation pass has run. *)
Theorem falha_sem_sincronizar op e e' :
  executar float_de_texto op e = Ret (false, e') →
  (∃ m, terminal e' = terminal e ++ [Erro m]) ∧
  insumos e' = insumos e ∧ arquivo e' = arquivo e ∧
  tabela e' = tabela e ∧ connection e' = connection e ∧
  falhas e' = falhas e.
Proof.
  intros H.
  assert (∃ m, e' = recusado m e) as [m ->]; [| by eauto 10].
  destruct op; simpl in H.
  - apply adicionar_insumo_Ret in H as [[_ ->]|[? _]]; [eauto | done].
  - apply atualizar_insumo_Ret in H as [[_ ->]|[? _]]; [eauto | done].
  - apply remover_insumo_Ret in H as [[_ ->]|[? _]]; [eauto | done].
  - apply registrar_entrada_Ret in H as [[_ ?]|[? _]]; [eauto | done].
  - apply registrar_saida_Ret in H as [[_ ?]|[? _]]; [eauto | done].
Qed.


End Transacoes_claims.

(** C5: the alerts are exactly the records of the working set whose
    quantity is at most their minimum level, each reduced to its code, name,
    quantity, unit and minimum level; the call reads the working set of the
    moment and leaves the whole state as it was. *)
Theorem verificar_alertas_exato e :
  Forall (λ i, bem_formado i) (insumos e) →
  ∃ l, verificar_alertas e = Ret (l, e) ∧
    (∀ a, a ∈ l ↔
       ∃ i q m, i ∈ insumos e ∧
         i !! "quantidade" = Some (VNum q) ∧ i !! "nivel_min" = Some (VNum m) ∧
         f_menor_igual q m ∧
         dom a = list_to_set campos_alerta ∧
         ∀ k, k ∈ campos_alerta → a !! k = i !! k).
Proof.
  intros Hbf. exists (projetar <$> filter em_alerta (insumos e)). split.
  { unfold verificar_alertas. passos. by rewrite alertas_bem_formado. }
  intros a. rewrite list_elem_of_fmap. split.
  - intros (i & -> & [Ha Hi]%list_elem_of_filter).
    pose proof Hbf as Hbf'. rewrite list.Forall_forall in Hbf'.
    destruct (bem_formado_campos i (Hbf' i Hi))
      as (c & n & q & u & p & m & Hc & Hn & Hq & Hu & Hp & Hm).
    exists i, q, m. unfold em_alerta in Ha. rewrite Hq, Hm in Ha.
    split_and!; try done.
    + apply set_eq. intros k. rewrite elem_of_dom, projetar_lookup.
      rewrite elem_of_list_to_set. case_decide as Hk.
      * split; [done |]. intros _.
        repeat (apply elem_of_cons in Hk as [->|Hk]; [by eexists |]).
        by apply elem_of_nil in Hk.
      * split; [by intros [? ?] | done].
    + intros k Hk. rewrite projetar_lookup. by rewrite decide_True.
  - intros (i & q & m & Hi & Hq & Hm & Hle & Hdom & Hk).
    exists i. split.
    + apply map_eq. intros k. rewrite projetar_lookup. case_decide as Hin.
      * by apply Hk.
      * apply not_elem_of_dom. rewrite Hdom, elem_of_list_to_set. done.
    + apply list_elem_of_filter. split; [| done].
      unfold em_alerta. by rewrite Hq, Hm.
Qed.

(** C10: the alerts are the records in alert in the order in which the
    working set lists them: the list of alerts is the list of the working
    set, filtered by the alert condition and projected record by record. *)
Theorem verificar_alertas_na_ordem e :
  Forall (λ i, bem_formado i) (insumos e) →
  ∃ l, listar_insumos e = Ret (l, e) ∧
       verificar_alertas e = Ret (projetar <$> filter em_alerta l, e).
Proof.
  intros Hbf. exists (insumos e). split; [done |].
  unfold verificar_alertas. passos. by rewrite alertas_bem_formado.
Qed.

Section Invariantes_claims.

Variable float_de_texto : string → option flutuante.

(** C1, as amended: from a working set whose quantities are all numbers
    that are not negative, every state reached by mutations that are given
    no negative quantity (the records added carry a quantity that is not
    negative, the updates leave the quantity out or give one that is not
    negative, the amounts of the entries and exits are finite) has
    quantities that are all not negative.  The amounts are not restricted
    otherwise: an exit larger than the stock is refused. *)
Theorem quantidade_nao_negativa_conservada e e' :
  Forall (λ i, quantidade_ok i) (insumos e) →
  alcancavel float_de_texto (conserva_quantidade float_de_texto) e e' →
  Forall (λ i, quantidade_ok i) (insumos e').
Proof.
  intros Hinv. induction 1 as [|e1 e2 op b _ IH Hop Hex]; [done |].
  by eapply passo_quantidade.
Qed.

(** C2, as amended: from a working set whose codes are pairwise distinct,
    every state reached by mutations in which no update renames a record
    (the fields of an update leave the code out or repeat it) has codes
    that are pairwise distinct. *)
Theorem codigos_distintos_conservados e e' :
  distintos (codigos (insumos e)) →
  alcancavel float_de_texto conserva_codigo e e' →
  distintos (codigos (insumos e')).
Proof.
  intros Hinv. induction 1 as [|e1 e2 op b _ IH Hop Hex]; [done |].
  by eapply passo_codigos.
Qed.

End Invariantes_claims.

(** C1, as stated, fails: adding a record with the quantity -5 to the empty
    working set is accepted, and the state reached holds a negative
    quantity. *)
Lemma quantidade_negativa_aceita :
  Forall (λ i, quantidade_ok i) (insumos vazio) ∧
  ∃ e', executar sem_texto (Adicionar ureia_negativa) vazio = Ret (true, e') ∧
        alcancavel sem_texto (λ _, True) vazio e' ∧
        ¬ Forall (λ i, quantidade_ok i) (insumos e').
Proof.
  split; [constructor |].
  destruct (adicionar_insumo_novo vazio ureia_negativa (num 1))
    as (e' & He & Hi & _); [constructor | done | done |].
  exists e'. split_and!; [done | |].
  - by eapply (alc_passo _ _ _ _ _ (Adicionar ureia_negativa));
      [apply alc_inicio | |].
  - rewrite Hi. intros [Hq _]%Forall_cons. vm_compute in Hq. exact Hq.
Qed.

(** C2, as stated, fails: an update of the record 1 whose fields carry the
    code 2 is accepted while a record 2 exists, and the state reached holds
    the code 2 twice. *)
Lemma atualizar_duplica_codigo :
  distintos (codigos (insumos com_dois)) ∧
  ∃ e', executar sem_texto (Atualizar (num 1) {["codigo" := num 2]}) com_dois
        = Ret (true, e') ∧
        alcancavel sem_texto (λ _, True) com_dois e' ∧
        ¬ distintos (codigos (insumos e')).
Proof.
  split.
  { vm_compute. exact I. }
  destruct (atualizar_insumo_achado com_dois (num 1) {["codigo" := num 2]}
              0 ureia) as (e' & He & Hi & _).
  { repeat constructor; by eexists. }
  { done. }
  exists e'. split_and!; [done | |].
  - by eapply (alc_passo _ _ _ _ _ (Atualizar (num 1) {["codigo" := num 2]}));
      [apply alc_inicio | |].
  - rewrite Hi. intros Hnd. vm_compute in Hnd. exact Hnd.
Qed.

(** C3, as amended: when the gateway behaves alike during both passes
    (no interaction with it ends in a fault, or it refuses both
    connections), two passes in a row over the same working set leave the
    local file and the remote table as one pass leaves them. *)
Theorem sincronizar_duas_vezes e :
  Forall tem_codigo (insumos e) → sem_falhas e ∨ sem_conexao e →
  ∃ e1 e2, _sincronizar e = Ret (tt, e1) ∧ _sincronizar e1 = Ret (tt, e2) ∧
           insumos e1 = insumos e ∧
           arquivo e2 = arquivo e1 ∧ tabela e2 = tabela e1.
Proof.
  intros Hwf [H|[fs Hf]].
  - destruct (_sincronizar_sem_falhas e Hwf H)
      as (e1 & H1 & I1 & A1 & T1 & F1).
    rewrite <- I1 in Hwf.
    destruct (_sincronizar_sem_falhas e1 Hwf F1)
      as (e2 & H2 & I2 & A2 & T2 & _).
    exists e1, e2. split_and!; [done | done | done | |].
    + by rewrite A2, A1, I1.
    + by rewrite T2, T1, I1, passagem_idempotente.
  - destruct (_sincronizar_recusado e _ Hf) as (e1 & H1 & I1 & A1 & T1 & F1).
    destruct (_sincronizar_recusado e1 _ F1) as (e2 & H2 & I2 & A2 & T2 & _).
    exists e1, e2. split_and!; [done | done | done | | done].
    by rewrite A2, A1, I1.
Qed.

(** C3, as stated, fails: when the gateway cannot connect during the first
    pass and works during the second, the second pass inserts the record in
    the remote table, which the first pass had left empty. *)
Lemma segunda_passagem_altera_remoto :
  ∃ e1 e2, _sincronizar fora_do_ar = Ret (tt, e1) ∧
           _sincronizar e1 = Ret (tt, e2) ∧
           insumos e1 = insumos fora_do_ar ∧
           tabela e2 ≠ tabela e1.
Proof.
  eexists _, _. split_and!.
  - vm_compute. reflexivity.
  - vm_compute. reflexivity.
  - reflexivity.
  - intros Heq. apply (f_equal (λ t, t !! Qc_of_Z 1)) in Heq.
    vm_compute in Heq. discriminate.
Qed.
(** ** Floats at concrete values *)

Lemma fin_igual x (a : Qc) :
  match x with
  | Fin b => Qeq_bool b a
  | _ => false
  end = true →
  x = Fin a.
Proof.
  destruct x as [b| |]; try done. intros H. f_equal.
  apply Qc_is_canon. by apply Qeq_bool_eq.
Qed.


Lemma float_de_90 : arredondar (Qc_of_Z 90) = Fin (Qc_of_Z 90).
Proof. apply fin_igual. vm_compute. reflexivity. Qed.


Lemma float_de_1 : arredondar (Qc_of_Z 1) = Fin (Qc_of_Z 1).
Proof. apply fin_igual. vm_compute. reflexivity. Qed.

Lemma float_de_10_16 :
  arredondar (Qc_of_Z (10 ^ 16)) = Fin (Qc_of_Z (10 ^ 16)).
Proof. apply fin_igual. vm_compute. reflexivity. Qed.


(** 10^16 - 1 is no float: the two floats nearest to it are 10^16 - 2 and
    10^16, as near one as the other, and 10^16 is the even one. *)
Lemma dez_16_menos_um :
  arredondar (Qc_of_Z (10 ^ 16) - Qc_of_Z 1) = Fin (Qc_of_Z (10 ^ 16)).
Proof. apply fin_igual. vm_compute. reflexivity. Qed.

(** C4, as stated, fails: in a working set that holds the record 1 as the
    data base lists it, an update of the name of that record meets its
    precondition and returns the success outcome, but the file does not
    hold the working set: the write has failed on a time stamp, the file,
    which held a list before, is left cut short, and the message of the
    failed write was printed before the message of success. *)
Lemma sucesso_sem_gravar :
  Forall (λ i, bem_formado i) (insumos vindo_do_banco) ∧
  precondicao sem_texto (Atualizar (num 1) {["nome" := VStr "Ureia 46%"]})
    (insumos vindo_do_banco) ∧
  ∃ e', executar sem_texto
          (Atualizar (num 1) {["nome" := VStr "Ureia 46%"]}) vindo_do_banco
        = Ret (true, e') ∧
        arquivo e' ≠ Documento (insumos e') ∧
        arquivo e' = Corrompido ∧
        terminal e' = [ErroAoSalvar; SucessoAtualizado].
Proof.
  split; [repeat constructor |]. split; [by eexists |].
  eexists. split; [vm_compute; reflexivity |].
  split_and!; [discriminate | reflexivity | reflexivity].
Qed.

(** C6, as stated, fails: with 10^16 in stock, an exit of 1, a positive
    amount that the stock covers, succeeds and leaves the quantity, with
    the whole working set, exactly as it was: the quantity has not been
    lowered by the amount. *)
Lemma saida_sem_baixa :
  primeiro (num 1) (insumos com_muita_ureia) = Some (0%nat, ureia_a_granel) ∧
  ureia_a_granel !! "quantidade" = Some (num (10 ^ 16)) ∧
  validar_float sem_texto (num 1) = Ret (Some (Fin (Qc_of_Z 1))) ∧
  Qc_of_Z 0 < Qc_of_Z 1 ∧ Qc_of_Z 1 ≤ Qc_of_Z (10 ^ 16) ∧
  ∃ e', registrar_saida sem_texto (num 1) (num 1) com_muita_ureia
        = Ret (true, e') ∧
        insumos e' = insumos com_muita_ureia.
Proof.
  assert (validar_float sem_texto (num 1) = Ret (Some (Fin (Qc_of_Z 1))))
    as Hv.
  { unfold validar_float, num, para_float. by rewrite float_de_1. }
  split_and!; [reflexivity | reflexivity | exact Hv | reflexivity
              | apply (bool_decide_unpack _); vm_compute; exact I |].
  destruct (registrar_saida_ok sem_texto com_muita_ureia (num 1) (num 1)
              (Fin (Qc_of_Z 1)) 0 ureia_a_granel
              (Fin (Qc_of_Z (10 ^ 16))) (Fin (Qc_of_Z (10 ^ 16))))
    as (e' & He & Hi & _).
  - repeat constructor.
  - reflexivity.
  - exact Hv.
  - reflexivity.
  - reflexivity.
  - reflexivity.
  - unfold para_float. by rewrite float_de_10_16.
  - exists e'. split; [exact He |]. rewrite Hi.
    cbn [f_subtrai f_soma f_oposto].
    change (Qc_of_Z (10 ^ 16) + - Qc_of_Z 1)
      with (Qc_of_Z (10 ^ 16) - Qc_of_Z 1).
    rewrite dez_16_menos_um. reflexivity.
Qed.

(** * Further properties of the manager *)

(** ** The search *)

Lemma procurar_Levanta c l x :
  procurar c l = Levanta x ↔
  x = KeyError ∧
  ∃ n r, l !! n = Some r ∧ r !! "codigo" = None ∧
         ∀ j r', l !! j = Some r' → (j < n)%nat → ¬ tem_o_codigo c r'.
Proof.
  split.
  - induction l as [|i l IH]; cbn [procurar]; [discriminate |].
    unfold item. destruct (i !! "codigo") as [v|] eqn:Hi; cbn [tentar].
    + destruct (py_eq v c) eqn:Heq; [discriminate |].
      destruct (procurar c l) as [o|y]; cbn [tentar]; [discriminate |].
      intros [= ->]. destruct IH as (-> & n & r & Hn & Hr & Hlt); [done |].
      split; [done |]. exists (S n), r. split_and!; [done | done |].
      intros [|j] r' Hj Hjn; simplify_eq/=.
      * unfold tem_o_codigo. rewrite Hi, Heq. by intros [].
      * apply (Hlt j); [done | lia].
    + intros [= <-]. split; [done |]. exists 0%nat, i.
      split_and!; [done | done | intros; lia].
  - intros (-> & n & r & Hn & Hr & Hlt). revert n Hn Hlt.
    induction l as [|i l IH]; intros n Hn Hlt; [done |].
    cbn [procurar]. unfold item.
    destruct (i !! "codigo") as [v|] eqn:Hi; cbn [tentar]; [| done].
    destruct n as [|n]; [simplify_eq/= |].
    assert (py_eq v c = false) as ->.
    { specialize (Hlt 0%nat i eq_refl ltac:(lia)).
      unfold tem_o_codigo in Hlt. rewrite Hi in Hlt.
      by destruct (py_eq v c); [destruct Hlt |]. }
    rewrite (IH n); [done | done |].
    intros j r' Hj Hjn. apply (Hlt (S j)); [done | lia].
Qed.

Lemma procurar_Some_iff c l n i :
  procurar c l = Ret (Some (n, i)) ↔
  l !! n = Some i ∧ tem_o_codigo c i ∧
  ∀ j r, (j < n)%nat → l !! j = Some r → tem_codigo r ∧ ¬ tem_o_codigo c r.
Proof.
  split; [apply procurar_Some |].
  revert n. induction l as [|r l IH]; intros n (Hn & Hc & Hlt); [done |].
  cbn [procurar]. destruct n as [|n]; simplify_eq/=.
  - unfold tem_o_codigo in Hc. unfold item.
    destruct (i !! "codigo") as [v|]; [| done]. cbn [tentar].
    by destruct (py_eq v c).
  - destruct (Hlt 0%nat r ltac:(lia) eq_refl) as [[v Hv] Hr].
    unfold item. rewrite Hv. cbn [tentar].
    unfold tem_o_codigo in Hr. rewrite Hv in Hr.
    destruct (py_eq v c); [by destruct Hr |].
    rewrite (IH n); [done |]. split_and!; [done | done |].
    intros j r' Hj Hr'. apply (Hlt (S j)); [lia | done].
Qed.

Lemma procurar_None_iff c l :
  procurar c l = Ret None ↔
  Forall (λ r : insumo, tem_codigo r ∧ ¬ tem_o_codigo c r) l.
Proof.
  split; [apply procurar_None |].
  induction 1 as [|r l [[v Hv] Hr] _ IH]; [done |].
  cbn [procurar]. unfold item. rewrite Hv. cbn [tentar].
  unfold tem_o_codigo in Hr. rewrite Hv in Hr.
  destruct (py_eq v c); [by destruct Hr |]. by rewrite IH.
Qed.

(** X1: the search of the manager for a code returns the first record with
    that code, and its position, when every record before it carries a
    code; it returns nothing when every record carries a code and none has
    the code looked for; it raises [KeyError] exactly when a record without
    the key [codigo] comes before any record with the code looked for.  The
    state is left as it was. *)
Theorem buscar_insumo_resultados c e :
  (∀ n i, Estoque.buscar_insumo c e = Ret (Some (n, i), e) ↔
     insumos e !! n = Some i ∧ tem_o_codigo c i ∧
     ∀ j r, (j < n)%nat → insumos e !! j = Some r →
            tem_codigo r ∧ ¬ tem_o_codigo c r) ∧
  (Estoque.buscar_insumo c e = Ret (None, e) ↔
     Forall (λ r : insumo, tem_codigo r ∧ ¬ tem_o_codigo c r) (insumos e)) ∧
  (Estoque.buscar_insumo c e = Levanta KeyError ↔
     ∃ n r, insumos e !! n = Some r ∧ r !! "codigo" = None ∧
            ∀ j r', insumos e !! j = Some r' → (j < n)%nat →
                    ¬ tem_o_codigo c r') ∧
  (∀ o e', Estoque.buscar_insumo c e = Ret (o, e') → e' = e).
Proof.
  unfold Estoque.buscar_insumo. split_and!.
  - intros n i. rewrite <- procurar_Some_iff. passos. unfold puro.
    destruct (procurar c (insumos e)); split; intros; simplify_eq; done.
  - rewrite <- procurar_None_iff. passos. unfold puro.
    destruct (procurar c (insumos e)); split; intros; simplify_eq; done.
  - passos. unfold puro.
    destruct (procurar c (insumos e)) as [o|x] eqn:Hp.
    + split; [discriminate |]. intros H.
      assert (procurar c (insumos e) = Levanta KeyError) as Hx
        by (by apply procurar_Levanta).
      congruence.
    + apply procurar_Levanta in Hp as [-> Hp]. done.
  - intros o e'. passos. unfold puro.
    destruct (procurar c (insumos e)); intros; by simplify_eq.
Qed.

(** ** Removal *)




Lemma distintos_lookup cs n j o o' :
  distintos cs → cs !! n = Some o → cs !! j = Some o' → (n < j)%nat →
  ¬ mesmo_codigo o o'.
Proof.
  revert n j. induction cs as [|a cs IH]; intros n j Hd Hn Hj Hlt; [done |].
  apply distintos_cons in Hd as [Hf Hd].
  destruct j as [|j]; [lia |]. destruct n as [|n]; simplify_eq/=.
  - by apply (Forall_lookup_1 _ _ _ _ Hf Hj).
  - apply (IH n j); [done | done | done | lia].
Qed.

Lemma tem_o_codigo_mesmo_codigo c (i r : insumo) :
  tem_o_codigo c i → tem_o_codigo c r →
  mesmo_codigo (i !! "codigo") (r !! "codigo").
Proof.
  unfold tem_o_codigo, mesmo_codigo.
  destruct (i !! "codigo") as [v|]; [| done].
  destruct (r !! "codigo") as [w|]; [| done].
  intros Hv Hw. pose proof (py_eq_eq _ _ Hw) as ->. done.
Qed.

(** Among records with distinct codes, only one has a given code. *)
Lemma distintos_um_so l c n j (i r : insumo) :
  distintos (codigos l) → l !! n = Some i → l !! j = Some r →
  tem_o_codigo c i → tem_o_codigo c r → n = j.
Proof.
  intros Hd Hn Hj Hi Hr.
  assert (codigos l !! n = Some (i !! "codigo")) as Hcn
    by (unfold codigos; by rewrite list_lookup_fmap, Hn).
  assert (codigos l !! j = Some (r !! "codigo")) as Hcj
    by (unfold codigos; by rewrite list_lookup_fmap, Hj).
  destruct (Nat.lt_trichotomy n j) as [Hlt|[Heq|Hgt]]; [| done |].
  - destruct (distintos_lookup _ _ _ _ _ Hd Hcn Hcj Hlt).
    by apply (tem_o_codigo_mesmo_codigo c).
  - destruct (distintos_lookup _ _ _ _ _ Hd Hcj Hcn Hgt).
    by apply (tem_o_codigo_mesmo_codigo c).
Qed.

(** X3: in a working set whose codes are pairwise distinct, a record that
    has been removed is not found any more: after a removal that succeeded,
    the search for the same code returns nothing. *)
Theorem remover_e_buscar e c e' :
  Forall tem_codigo (insumos e) → distintos (codigos (insumos e)) →
  remover_insumo c e = Ret (true, e') →
  Estoque.buscar_insumo c e' = Ret (None, e').
Proof.
  intros Hwf Hd H.
  apply remover_insumo_Ret in H as [[? _]|(_ & n & i & Hp & Hi & _)]; [done |].
  apply procurar_Some in Hp as (Hn & Hc & Hlt).
  unfold Estoque.buscar_insumo. passos.
  assert (procurar c (insumos e') = Ret None) as ->; [| done].
  apply procurar_None_iff. rewrite Hi. apply list.Forall_forall. intros r Hr.
  apply list_elem_of_lookup in Hr as [k Hk].
  destruct (decide (k < n)%nat) as [Hkn|Hkn].
  - rewrite list_lookup_delete_lt in Hk by done.
    destruct (Hlt k r Hkn Hk) as [Hr Hnc]. done.
  - rewrite list_lookup_delete_ge in Hk by lia. split.
    + by apply (Forall_lookup_1 _ _ _ _ Hwf Hk).
    + intros Hrc.
      pose proof (distintos_um_so _ c _ _ _ _ Hd Hn Hk Hc Hrc). lia.
Qed.

(** ** Entries and exits *)

Lemma bem_formado_insert_quantidade (i : insumo) q :
  bem_formado i → bem_formado (<["quantidade" := VNum q]> i).
Proof.
  unfold bem_formado. rewrite lookup_insert_eq.
  rewrite !(lookup_insert_ne _ "quantidade") by done.
  rewrite !andb_True. cbn [e_numero].
  intros (((((? & ?) & ?) & ?) & ?) & ?). repeat split; done.
Qed.

Section Transacoes_extra.

Variable float_de_texto : string → option flutuante.




Lemma registrar_saida_mensagem e c v x n i q q' nome u m :
  Forall tem_codigo (insumos e) →
  primeiro c (insumos e) = Some (n, i) →
  validar_float float_de_texto v = Ret (Some x) →
  f_menor_igual x zero = false →
  i !! "quantidade" = Some (VNum q) → f_menor q x = false →
  para_float q = Ret q' →
  i !! "nome" = Some nome → i !! "unidade" = Some u →
  i !! "nivel_min" = Some (VNum m) →
  ∃ e', registrar_saida float_de_texto c v e = Ret (true, e') ∧
        insumos e' =
          <[n := <["quantidade" := VNum (f_subtrai q' x)]> i]> (insumos e) ∧
        arquivo e' = gravado (insumos e') ∧
        terminal e' =
          terminal e
          ++ aviso_de_gravacao (insumos e')
          ++ (if f_menor_igual (f_subtrai q' x) m
              then [AlertaNivelMinimo nome] else [])
          ++ [SucessoSaida x u].
Proof.
  intros Hwf Hp Hv Hx Hq Hle Hq' Hnome Hu Hm.
  pose proof (primeiro_tem_codigo _ _ _ _ Hp) as Hc.
  unfold registrar_saida, buscar_insumo. passos.
  rewrite (procurar_primeiro _ _ Hwf), Hp. passos.
  rewrite (verdadeiro_codigo _ Hc). cbn [negb]. rewrite Hv. passos.
  rewrite Hx.
  unfold item. rewrite Hq. passos. cbn [py_lt_float]. passos.
  rewrite Hle.
  cbn [py_sub_float]. rewrite Hq'. cbn [tentar]. passos.
  destruct (_sincronizar_ok (com_insumos
    (<[n := <["quantidade" := VNum (f_subtrai q' x)]> i]> (insumos e)) e))
    as (e1 & Hs & Hi & Ha & Ht).
  { simpl. apply Forall_insert; [done |]. by apply tem_codigo_insert. }
  rewrite (ligar_passo _ _ _ _ _ Hs). passos.
  rewrite lookup_insert_eq. passos.
  rewrite (lookup_insert_ne _ "quantidade" "nivel_min"), Hm by done. passos.
  cbn [py_le]. passos.
  rewrite (lookup_insert_ne _ "quantidade" "nome"), Hnome by done.
  rewrite (lookup_insert_ne _ "quantidade" "unidade"), Hu by done.
  destruct (f_menor_igual (f_subtrai q' x) m); passos;
    (eexists; split; [reflexivity |]; simpl in *; rewrite Hi, Ha, Ht;
     split_and!; [done | done |]; by rewrite <- ?(assoc_L (++))).
Qed.

(** X5: the warning of an exit agrees with the alerts.  After an exit that
    succeeded on a working set of well-formed records with distinct codes,
    the terminal has received the warning of the minimum level, followed by
    the message of success, exactly when the record is in alert after the
    exit, and this is exactly when the alerts computed next list it.  The
    only other message is the one of the write of the file, when it
    fails; it comes first. *)
Theorem registrar_saida_avisa_se_em_alerta e c v e' :
  Forall (λ i, bem_formado i) (insumos e) → distintos (codigos (insumos e)) →
  registrar_saida float_de_texto c v e = Ret (true, e') →
  ∃ n i' x nome u al,
    insumos e' !! n = Some i' ∧ tem_o_codigo c i' ∧
    validar_float float_de_texto v = Ret (Some x) ∧
    i' !! "nome" = Some nome ∧ i' !! "unidade" = Some u ∧
    terminal e' =
      terminal e
      ++ (if serializaveis (insumos e') then [] else [ErroAoSalvar])
      ++ (if em_alerta i' then [AlertaNivelMinimo nome] else [])
      ++ [SucessoSaida x u] ∧
    verificar_alertas e' = Ret (al, e') ∧
    (projetar i' ∈ al ↔ em_alerta i').
Proof.
  intros Hbf Hd H. pose proof (Forall_bem_formado_tem_codigo _ Hbf) as Hwf.
  pose proof H as H'.
  apply registrar_saida_Ret in H'
    as [[? _]|(_ & n & i & q & q' & x & Hp & Hv & Hx & Hlt & Hq & Hq' & _)];
    [done |].
  rewrite (procurar_primeiro _ _ Hwf) in Hp. simplify_eq.
  pose proof Hp as (Hn & Hc & _)%primeiro_Some.
  pose proof (Forall_lookup_1 _ _ _ _ Hbf Hn) as Hi.
  pose proof Hi as (? & nome & q0 & u & ? & m & Hcod & Hnome & Hq0 & Hu & _ & Hm)
    %bem_formado_campos.
  simplify_eq.
  destruct (registrar_saida_mensagem e c v x n i q q' (VStr nome) (VStr u) m)
    as (e'' & He & Hi' & Ha & Ht); try done.
  assert (e'' = e') as -> by congruence. clear He.
  set (i' := <["quantidade" := VNum (f_subtrai q' x)]> i) in *.
  assert (em_alerta i' = f_menor_igual (f_subtrai q' x) m) as Hal.
  { unfold em_alerta, i'. rewrite lookup_insert_eq.
    by rewrite lookup_insert_ne, Hm by done. }
  assert (i' !! "codigo" = i !! "codigo") as Hci
    by (unfold i'; by rewrite lookup_insert_ne).
  assert (insumos e' !! n = Some i') as Hn'.
  { rewrite Hi'. apply list_lookup_insert_eq. by eapply lookup_lt_Some. }
  assert (tem_o_codigo c i') as Hc'.
  { unfold tem_o_codigo in *. by rewrite Hci. }
  assert (Forall (λ i, bem_formado i) (insumos e')) as Hbf'.
  { rewrite Hi'. apply Forall_insert; [done |].
    by apply bem_formado_insert_quantidade. }
  assert (distintos (codigos (insumos e'))) as Hd'.
  { rewrite Hi'. by erewrite codigos_insert. }
  exists n, i', x, (VStr nome), (VStr u),
    (projetar <$> filter em_alerta (insumos e')).
  split_and!; try done.
  - unfold i'. by rewrite lookup_insert_ne.
  - unfold i'. by rewrite lookup_insert_ne.
  - by rewrite Hal.
  - unfold verificar_alertas. passos. by rewrite alertas_bem_formado.
  - rewrite list_elem_of_fmap. split.
    + intros (r & Hpr & [Hra Hr]%list_elem_of_filter).
      apply list_elem_of_lookup in Hr as [j Hj].
      assert (tem_o_codigo c r) as Hrc.
      { unfold tem_o_codigo in *.
        assert (r !! "codigo" = i' !! "codigo") as ->; [| done].
        apply (f_equal (λ d : insumo, d !! "codigo")) in Hpr.
        rewrite !projetar_lookup in Hpr.
        rewrite !decide_True in Hpr by (unfold campos_alerta; set_solver).
        done. }
      pose proof (distintos_um_so _ c _ _ _ _ Hd' Hn' Hj Hc' Hrc).
      by simplify_eq.
    + intros Hin. exists i'. split; [done |].
      apply list_elem_of_filter. split; [done |].
      by eapply list_elem_of_lookup_2.
Qed.

End Transacoes_extra.

(** ** What the calls of the gateway change *)

Lemma interagir_Ret e f e' :
  interagir e = Ret (f, e') →
  insumos e' = insumos e ∧ arquivo e' = arquivo e ∧
  terminal e' = terminal e ∧ connection e' = connection e ∧
  tabela e' = tabela e ∧
  ((f = false ∧ falhas e = [] ∧ falhas e' = []) ∨ falhas e = f :: falhas e').
Proof.
  unfold interagir. destruct (falhas e) as [|f' fs] eqn:Hf; intros H;
    simplify_eq; split_and!; try done.
  - left. done.
  - right. done.
Qed.

Lemma conectar_Ret e ok e' :
  conectar e = Ret (ok, e') →
  mesmo_local e e' ∧ tabela e' = tabela e ∧
  connection e' = (if ok then true else connection e).
Proof.
  unfold conectar. intros H. apply ligar_Ret in H as (f & e1 & Hi & H).
  apply interagir_Ret in Hi as (I & A & T & C & Tb & _).
  destruct f; desmontar; unfold mesmo_local; simpl;
    split_and!; congruence.
Qed.

Lemma executar_query_Ret sql e r e' :
  executar_query sql e = Ret (r, e') →
  mesmo_local e e' ∧ tabela e' = tabela e ∧
  (r = None ∨ r = sql (tabela e)).
Proof.
  unfold executar_query. intros H.
  apply ligar_Ret in H as (ok & e1 & Hc & H).
  apply conectar_Ret in Hc as ((I1 & A1 & T1) & Tb1 & _).
  destruct ok; cbn [negb] in H.
  - apply ligar_Ret in H as (f & e2 & Hi & H).
    apply interagir_Ret in Hi as (I2 & A2 & T2 & _ & Tb2 & _).
    destruct f; desmontar; unfold mesmo_local;
      (split_and!; [congruence | congruence | congruence | congruence |]).
    + by left.
    + right. by rewrite Tb2, Tb1.
  - desmontar. unfold mesmo_local. split_and!; try done. by left.
Qed.

Lemma executar_dml_Ret sql e b e' :
  executar_dml sql e = Ret (b, e') →
  mesmo_local e e' ∧
  ((b = false ∧ tabela e' = tabela e) ∨
   (b = true ∧ sql (tabela e) = Some (tabela e'))).
Proof.
  unfold executar_dml. intros H.
  apply ligar_Ret in H as (ok & e1 & Hc & H).
  apply conectar_Ret in Hc as ((I1 & A1 & T1) & Tb1 & _).
  destruct ok; cbn [negb] in H.
  - apply ligar_Ret in H as (f & e2 & Hi & H).
    apply interagir_Ret in Hi as (I2 & A2 & T2 & _ & Tb2 & _).
    destruct f; desmontar.
    + unfold mesmo_local. split_and!; [congruence.. |]. left.
      split; congruence.
    + destruct (sql (tabela e2)) as [t'|] eqn:Hsql; desmontar.
      * unfold mesmo_local. simpl. split_and!; [congruence.. |]. right.
        split; [done |]. by rewrite <- Tb1, <- Tb2.
      * unfold mesmo_local. split_and!; [congruence.. |]. left.
        split; congruence.
  - desmontar. unfold mesmo_local. split_and!; try done. by left.
Qed.

(** X6: an update that carries none of the five fields that may be
    updated is refused before anything is sent: the call returns the
    failure outcome and the state, with the connection and the schedule of
    the gateway, is exactly as it was. *)
Theorem oracle_atualizar_insumo_sem_campos c (i : insumo) e :
  (∀ k, k ∈ campos_permitidos → i !! k = None) →
  OracleGateway.atualizar_insumo c i e = Ret (false, e).
Proof.
  intros Hk. unfold OracleGateway.atualizar_insumo.
  rewrite bool_decide_eq_true_2; [done |].
  apply map_eq. intros k. rewrite lookup_empty.
  apply map_lookup_filter_None. right. intros v Hi Hin. simpl in Hin.
  rewrite (Hk k Hin) in Hi. done.
Qed.

(** ** Relations that every call respects *)

Section Respeita.

Context (R : Mundo → Mundo → Prop) `{!PreOrder R}.

Lemma respeita_retorna {A} (a : A) : respeita R (retorna a).
Proof. intros e b e' [_ ->]%retorna_Ret. reflexivity. Qed.

Lemma respeita_puro {A} (r : resultado A) : respeita R (puro r).
Proof. intros e b e' [_ ->]%puro_Ret. reflexivity. Qed.

Lemma respeita_ler {A} (f : Mundo → A) : respeita R (ler f).
Proof. intros e b e' [_ ->]%ler_Ret. reflexivity. Qed.

Lemma respeita_mudar f : (∀ e, R e (f e)) → respeita R (mudar f).
Proof. intros Hf e b e' ->%mudar_Ret. apply Hf. Qed.

Lemma respeita_ligar {A B} (m : M A) (k : A → M B) :
  respeita R m → (∀ a, respeita R (k a)) → respeita R (ligar m k).
Proof.
  intros Hm Hk e b e' (a & e1 & H1 & H2)%ligar_Ret.
  transitivity e1; [by eapply Hm | by eapply Hk].
Qed.

Lemma respeita_para_cada {A} (corpo : A → M unit) l :
  (∀ x, respeita R (corpo x)) → respeita R (para_cada corpo l).
Proof.
  intros Hc. induction l as [|x l IH]; cbn [para_cada].
  - apply respeita_retorna.
  - apply respeita_ligar; [apply Hc | intros _; apply IH].
Qed.

End Respeita.

Ltac respeitar :=
  repeat (cbv zeta; first
    [ assumption
    | match goal with
      | H : context [respeita] |- respeita _ _ => apply H
      end
    | apply respeita_retorna; assumption
    | apply respeita_puro; assumption
    | apply respeita_ler; assumption
    | apply respeita_mudar; intros ?; solve [auto]
    | apply respeita_ligar; [assumption | | intros ?]
    | match goal with
      | |- respeita _ (match ?x with _ => _ end) => destruct x
      end ]).

Section Invariantes_extra.

Variable float_de_texto : string → option flutuante.

(** A relation that the changes of the working set and of the terminal
    respect, and that a synchronisation pass respects, is respected by
    every mutation. *)
Lemma respeita_executar (R : Mundo → Mundo → Prop) `{!PreOrder R} op :
  (∀ l e, R e (com_insumos l e)) → (∀ t e, R e (com_terminal t e)) →
  respeita R _sincronizar →
  respeita R (executar float_de_texto op).
Proof.
  intros Hi Ht Hs.
  destruct op; cbn [executar];
    unfold adicionar_insumo, atualizar_insumo, remover_insumo,
      registrar_entrada, registrar_saida, Estoque.buscar_insumo, imprimir;
    respeitar.
Qed.

Lemma alcancavel_respeita (R : Mundo → Mundo → Prop) `{!PreOrder R} P e e' :
  (∀ op, respeita R (executar float_de_texto op)) →
  alcancavel float_de_texto P e e' → R e e'.
Proof.
  intros Hop. induction 1 as [|e1 e2 op b _ IH _ Hex]; [reflexivity |].
  transitivity e1; [done | by eapply Hop].
Qed.

End Invariantes_extra.

(** ** The connection is closed again *)

Global Instance sem_ligacao_aberta_preordem : PreOrder sem_ligacao_aberta.
Proof.
  unfold sem_ligacao_aberta. split.
  - by intros e.
  - intros e1 e2 e3 H12 H23 H. auto.
Qed.

Lemma _sincronizar_fecha : respeita sem_ligacao_aberta _sincronizar.
Proof.
  intros e u e' H Hc. unfold _sincronizar in H.
  apply ligar_Ret in H as (ok & e1 & Hcon & H).
  apply conectar_Ret in Hcon as (_ & _ & C1).
  apply ligar_Ret in H as (? & e2 & Hloop & H).
  assert (connection e2 = false) as C2.
  { destruct ok.
    - apply ligar_Ret in Hloop as (l & e3 & _ & Hloop).
      apply ligar_Ret in Hloop as (? & e4 & _ & Hd).
      unfold desconectar in Hd. apply mudar_Ret in Hd as ->. done.
    - apply retorna_Ret in Hloop as [_ ->]. congruence. }
  apply ligar_Ret in H as (l & e3 & Hl & H). apply ler_Ret in Hl as [-> ->].
  apply ligar_Ret in H as (b & e3 & Hs & H).
  apply salvar_insumos_Ret in Hs as [_ ->]. apply retorna_Ret in H as [_ ->].
  done.
Qed.

(** ** The rows of the remote table stay *)

Global Instance linhas_ficam_preordem : PreOrder linhas_ficam.
Proof.
  unfold linhas_ficam. split.
  - by intros e.
  - intros e1 e2 e3 H12 H23 c H. auto.
Qed.

Lemma conectar_linhas : respeita linhas_ficam conectar.
Proof.
  intros e ok e' (_ & Tb & _)%conectar_Ret c. by rewrite Tb.
Qed.

Lemma executar_query_linhas sql : respeita linhas_ficam (executar_query sql).
Proof.
  intros e r e' (_ & Tb & _)%executar_query_Ret c. by rewrite Tb.
Qed.

Lemma executar_dml_linhas sql :
  (∀ t t' c, sql t = Some t' → is_Some (t !! c) → is_Some (t' !! c)) →
  respeita linhas_ficam (executar_dml sql).
Proof.
  intros Hsql e b e' (_ & [[_ Tb]|[_ Tb]])%executar_dml_Ret c.
  - by rewrite Tb.
  - by apply Hsql.
Qed.

Lemma sql_insert_linhas p t t' c :
  sql_insert p t = Some t' → is_Some (t !! c) → is_Some (t' !! c).
Proof.
  unfold sql_insert. destruct (get p "codigo") as [|[k| |]| |]; try done.
  destruct (t !! k) eqn:Hk; [done |]. intros [= <-] Hc.
  rewrite lookup_insert. case_decide; [by eexists | done].
Qed.

Lemma sql_update_linhas p t t' c :
  sql_update p t = Some t' → is_Some (t !! c) → is_Some (t' !! c).
Proof.
  unfold sql_update. destruct (get p "codigo") as [|[k| |]| |]; try done.
  intros [= <-] Hc. rewrite lookup_alter. case_decide; [| done].
  subst k. by apply fmap_is_Some.
Qed.

Lemma sincronizar_insumo_linhas i :
  respeita linhas_ficam (sincronizar_insumo i).
Proof.
  pose proof executar_query_linhas as Hq.
  pose proof (λ p, executar_dml_linhas _ (sql_insert_linhas p)) as Hins.
  pose proof (λ p, executar_dml_linhas _ (sql_update_linhas p)) as Hupd.
  pose proof linhas_ficam_preordem.
  unfold sincronizar_insumo, OracleGateway.buscar_insumo,
    OracleGateway.inserir_insumo, OracleGateway.atualizar_insumo.
  respeitar; by auto.
Qed.

Lemma _sincronizar_linhas : respeita linhas_ficam _sincronizar.
Proof.
  pose proof conectar_linhas.
  pose proof linhas_ficam_preordem.
  assert (∀ l, respeita linhas_ficam (para_cada sincronizar_insumo l)) as Hl.
  { intros l. apply respeita_para_cada; [done |].
    apply sincronizar_insumo_linhas. }
  assert (∀ c e, linhas_ficam e (com_connection c e)) by (by intros c e k).
  assert (∀ a e, linhas_ficam e (com_arquivo a e)) by (by intros a e k).
  assert (∀ t e, linhas_ficam e (com_terminal t e)) by (by intros t e k).
  unfold _sincronizar, desconectar, salvar_insumos, imprimir.
  respeitar; by auto.
Qed.

Section Invariantes_do_gateway.

Variable float_de_texto : string → option flutuante.

(** X7: the manager leaves no connection open.  From a state in which the
    gateway holds no connection, every state reached by mutations, whatever
    they are and however the gateway fails, holds no connection either:
    a pass that has connected disconnects before it ends. *)
Theorem conexao_fechada_conservada P e e' :
  connection e = false → alcancavel float_de_texto P e e' →
  connection e' = false.
Proof.
  intros Hc Halc. revert Hc.
  apply (alcancavel_respeita float_de_texto sem_ligacao_aberta P); [| done].
  intros op. apply respeita_executar.
  - apply _.
  - intros l s H. exact H.
  - intros t s H. exact H.
  - apply _sincronizar_fecha.
Qed.

(** X8: the manager deletes no row of the remote table.  Every code that
    has a row in the remote table still has one in every state reached by
    mutations, removals included: a pass only inserts and updates rows, so
    the row of a record that was removed from the working set stays. *)
Theorem linhas_remotas_ficam P e e' c :
  alcancavel float_de_texto P e e' →
  is_Some (tabela e !! c) → is_Some (tabela e' !! c).
Proof.
  intros Halc. revert c.
  apply (alcancavel_respeita float_de_texto linhas_ficam P); [| done].
  intros op. apply respeita_executar.
  - apply _.
  - intros l s k H. exact H.
  - intros t s k H. exact H.
  - apply _sincronizar_linhas.
Qed.

End Invariantes_do_gateway.

(** ** A pass touches only the rows of its records *)

Global Instance linha_intacta_preordem c : PreOrder (linha_intacta c).
Proof.
  unfold linha_intacta. split.
  - by intros e.
  - intros e1 e2 e3 H12 H23. congruence.
Qed.

Lemma executar_dml_linha sql c :
  (∀ t t', sql t = Some t' → t' !! c = t !! c) →
  respeita (linha_intacta c) (executar_dml sql).
Proof.
  intros Hsql e b e' (_ & [[_ Tb]|[_ Tb]])%executar_dml_Ret.
  - unfold linha_intacta. by rewrite Tb.
  - by apply Hsql.
Qed.

Lemma sql_insert_linha p t t' (c : Qc) :
  get p "codigo" ≠ VNum (Fin c) → sql_insert p t = Some t' →
  t' !! c = t !! c.
Proof.
  unfold sql_insert. destruct (get p "codigo") as [|[k| |]| |]; try done.
  destruct (t !! k); [done |]. intros Hk [= <-].
  apply lookup_insert_ne. congruence.
Qed.

Lemma sql_update_linha p t t' (c : Qc) :
  get p "codigo" ≠ VNum (Fin c) → sql_update p t = Some t' →
  t' !! c = t !! c.
Proof.
  unfold sql_update. destruct (get p "codigo") as [|[k| |]| |]; try done.
  intros Hk [= <-]. apply lookup_alter_ne. congruence.
Qed.

Lemma sincronizar_insumo_linha (i : insumo) c :
  i !! "codigo" ≠ Some (VNum (Fin c)) →
  respeita (linha_intacta c) (sincronizar_insumo i).
Proof.
  intros Hi e u e' H. unfold sincronizar_insumo in H.
  apply ligar_Ret in H as (c0 & e0 & Hc0 & H).
  apply puro_Ret in Hc0 as [Hc0%item_Ret ->].
  apply ligar_Ret in H as (achado & e1 & Hb & H).
  assert (linha_intacta c e e1) as H1.
  { unfold OracleGateway.buscar_insumo in Hb.
    apply ligar_Ret in Hb as (r & e2 & Hq & Hb).
    apply executar_query_Ret in Hq as (_ & Tb & _).
    apply retorna_Ret in Hb as [_ ->]. unfold linha_intacta.
    by rewrite Tb. }
  transitivity e1; [done |].
  destruct (negb (verdadeiro achado)).
  - apply ligar_Ret in H as (b & e2 & Hins & H).
    apply retorna_Ret in H as [_ ->].
    unfold OracleGateway.inserir_insumo in Hins.
    eapply executar_dml_linha; [| exact Hins].
    intros t t'. apply sql_insert_linha.
    unfold get at 1. rewrite lookup_insert_eq. cbn [default from_option id].
    unfold get. rewrite Hc0. cbn [default from_option id]. congruence.
  - apply ligar_Ret in H as (c1 & e2 & Hc1 & H).
    apply puro_Ret in Hc1 as [Hc1%item_Ret ->].
    apply ligar_Ret in H as (b & e2 & Hupd & H).
    apply retorna_Ret in H as [_ ->].
    unfold OracleGateway.atualizar_insumo in Hupd.
    case_bool_decide.
    + apply retorna_Ret in Hupd as [_ ->]. reflexivity.
    + eapply executar_dml_linha; [| exact Hupd].
      intros t t'. apply sql_update_linha.
      unfold get. rewrite lookup_insert_eq. cbn [default from_option id].
      congruence.
Qed.

(** X9: a synchronisation pass touches only the rows of its records.
    Whatever the faults of the gateway, a pass that returns leaves the row
    of every code that no record of the working set carries exactly as it
    was, be it present or absent. *)
Theorem sincronizar_so_toca_nos_seus e e' (c : Qc) :
  _sincronizar e = Ret (tt, e') →
  (∀ i : insumo, i ∈ insumos e → i !! "codigo" ≠ Some (VNum (Fin c))) →
  tabela e' !! c = tabela e !! c.
Proof.
  intros H Hc. unfold _sincronizar in H.
  apply ligar_Ret in H as (ok & e1 & Hcon & H).
  pose proof Hcon as ((I1 & _) & Tb1 & _)%conectar_Ret.
  apply ligar_Ret in H as (? & e2 & Hloop & H).
  apply ligar_Ret in H as (l & e3 & Hl & H). apply ler_Ret in Hl as [-> ->].
  apply ligar_Ret in H as (b & e3 & Hs & H).
  apply salvar_insumos_Ret in Hs as [_ ->]. apply retorna_Ret in H as [_ ->].
  change (tabela e2 !! c = tabela e !! c). rewrite <- Tb1.
  destruct ok.
  - apply ligar_Ret in Hloop as (l & e3 & Hl & Hloop).
    apply ler_Ret in Hl as [-> ->].
    apply ligar_Ret in Hloop as (? & e4 & Hloop & Hd).
    unfold desconectar in Hd. apply mudar_Ret in Hd as ->.
    change (linha_intacta c e1 e4). revert Hloop. rewrite I1.
    generalize (insumos e) Hc e1. clear. intros l.
    induction l as [|i l IH]; intros Hc e1 H; cbn [para_cada] in H.
    + apply retorna_Ret in H as [_ ->]. reflexivity.
    + apply ligar_Ret in H as (? & e2 & Hi & H).
      transitivity e2.
      * eapply sincronizar_insumo_linha; [| exact Hi].
        apply Hc. by left.
      * apply IH; [| done]. intros r Hr. apply Hc. by right.
  - apply retorna_Ret in Hloop as [_ ->]. done.
Qed.
(** ** Loading the working set *)




(** ** The methods of the file that work on one record *)

Lemma outros_filter c l :
  Forall tem_codigo l →
  Storage_registros.outros c l
  = Ret (filter (λ i : insumo, ¬ tem_o_codigo c i) l).
Proof.
  induction 1 as [|i l [v Hv] _ IH]; [done |].
  cbn [Storage_registros.outros]. unfold item. rewrite Hv, IH. cbn [tentar].
  assert (tem_o_codigo c i = py_eq v c) as Hi
    by (unfold tem_o_codigo; by rewrite Hv).
  rewrite filter_cons. case_decide as Hd; rewrite Hi in Hd;
    destruct (py_eq v c); try done; exfalso; simpl in Hd; tauto.
Qed.

Lemma carregar_insumos_legivel e :
  legivel (arquivo e) →
  Storage.carregar_insumos e = Ret (registros (arquivo e), e).
Proof.
  unfold Storage.carregar_insumos. passos. by destruct (arquivo e).
Qed.

Lemma serializaveis_Forall l :
  serializaveis l ↔
  Forall (λ i : insumo, map_Forall (λ _ v, serializavel v) i) l.
Proof.
  unfold serializaveis. rewrite forallb_True.
  apply Forall_proper; [| done]. intros i. apply bool_decide_spec.
Qed.

Lemma serializaveis_filter (P : insumo → Prop) `{!∀ i, Decision (P i)} l :
  serializaveis l → serializaveis (filter P l).
Proof.
  rewrite !serializaveis_Forall, !list.Forall_forall.
  intros Hl i [_ Hi]%list_elem_of_filter. by apply Hl.
Qed.

(** X12: the update of the file, case by case, for a file that is absent
    or holds a list of records that all carry a code.  When no record has
    the code, the call returns the failure outcome and writes nothing: the
    file is not even created.  Otherwise the first record with the code is
    merged with the new fields, these taking precedence, and the list is
    written: the call returns the success outcome and the file holds the
    new list when all its values have a JSON form; when a new field has
    none, the write fails: the file is left cut short, a message is printed
    and the call returns the failure outcome. *)
Theorem storage_atualizar_insumo_resultados c d e :
  legivel (arquivo e) → Forall tem_codigo (registros (arquivo e)) →
  Storage_registros.atualizar_insumo c d e
  = match primeiro c (registros (arquivo e)) with
    | Some (n, i) =>
        if serializaveis (<[n := d ∪ i]> (registros (arquivo e)))
        then Ret (true,
                  com_arquivo
                    (Documento (<[n := d ∪ i]> (registros (arquivo e)))) e)
        else Ret (false,
                  com_terminal (terminal e ++ [ErroAoSalvar])
                    (com_arquivo Corrompido e))
    | None => Ret (false, e)
    end.
Proof.
  intros Hleg Hwf. unfold Storage_registros.atualizar_insumo.
  rewrite (ligar_passo _ _ _ _ _ (carregar_insumos_legivel e Hleg)). passos.
  rewrite (procurar_primeiro _ _ Hwf).
  destruct (primeiro c (registros (arquivo e))) as [[n i]|]; [| done].
  unfold Storage.salvar_insumos. passos.
  by destruct (serializaveis _).
Qed.

(** X13: for a file that is absent or holds a list of records that all
    carry a code and whose values all have a JSON form (as the values read
    from a file have), the removal from the file takes out every record
    with the code, not only the first one, keeps the others in their
    order, and reports success even when no record had the code; a search
    of the file for the code then returns nothing. *)
Theorem storage_remover_e_buscar c e :
  legivel (arquivo e) → Forall tem_codigo (registros (arquivo e)) →
  serializaveis (registros (arquivo e)) →
  ∃ e', Storage_registros.remover_insumo c e = Ret (true, e') ∧
        arquivo e' = Documento (filter (λ i : insumo, ¬ tem_o_codigo c i)
                                       (registros (arquivo e))) ∧
        Storage_registros.buscar_insumo c e' = Ret (None, e').
Proof.
  intros Hleg Hwf Hser. unfold Storage_registros.remover_insumo,
    Storage_registros.buscar_insumo.
  rewrite (ligar_passo _ _ _ _ _ (carregar_insumos_legivel e Hleg)). passos.
  rewrite (outros_filter _ _ Hwf). passos.
  set (l' := filter (λ i : insumo, ¬ tem_o_codigo c i)
                    (registros (arquivo e))).
  assert (serializaveis l' = true) as Hser'
    by (by apply Is_true_true, serializaveis_filter).
  unfold Storage.salvar_insumos. rewrite Hser'.
  exists (com_arquivo (Documento l') e).
  split; [reflexivity |]. split; [done |].
  rewrite (ligar_passo _ _ _ _ _
             (carregar_insumos_legivel (com_arquivo (Documento l') e) I)).
  passos.
  cbn [arquivo com_arquivo registros].
  rewrite procurar_primeiro.
  2:{ apply list.Forall_forall. intros r [_ Hr]%list_elem_of_filter.
      by apply (proj1 (list.Forall_forall _ _) Hwf). }
  assert (primeiro c l' = None) as ->; [| done].
  apply primeiro_None. by intros r [Hr _]%list_elem_of_filter.
Qed.

(** X14: for a file that is absent or holds a list of records that all
    carry a code, and a record that can be written with them (all the
    values have a JSON form), the addition to the file checks nothing: the
    record is put at the end of the list even when its code is already
    there.  A search of the file for that code then finds the first record
    with the code in the old list, and the new record only when the old
    list had none. *)
Theorem storage_adicionar_e_buscar (i : insumo) c e :
  legivel (arquivo e) → Forall tem_codigo (registros (arquivo e)) →
  serializaveis (registros (arquivo e) ++ [i]) →
  i !! "codigo" = Some c → py_eq c c →
  ∃ e', Storage_registros.adicionar_insumo i e = Ret (true, e') ∧
        arquivo e' = Documento (registros (arquivo e) ++ [i]) ∧
        Storage_registros.buscar_insumo c e'
        = Ret (Some (default i (snd <$> primeiro c (registros (arquivo e)))),
               e').
Proof.
  intros Hleg Hwf Hser%Is_true_true Hc Hcc.
  unfold Storage_registros.adicionar_insumo,
    Storage_registros.buscar_insumo.
  rewrite (ligar_passo _ _ _ _ _ (carregar_insumos_legivel e Hleg)).
  remember (registros (arquivo e)) as l eqn:Hl.
  unfold Storage.salvar_insumos. rewrite Hser.
  exists (com_arquivo (Documento (l ++ [i])) e).
  split; [reflexivity |]. split; [done |].
  rewrite (ligar_passo _ _ _ _ _
             (carregar_insumos_legivel
                (com_arquivo (Documento (l ++ [i])) e) I)).
  passos.
  cbn [arquivo com_arquivo registros].
  rewrite procurar_primeiro.
  2:{ apply Forall_app. split; [done |]. repeat constructor. by eexists. }
  assert (tem_o_codigo c i) as Hi by (unfold tem_o_codigo; by rewrite Hc).
  unfold primeiro.
  destruct (list_find (λ i : insumo, tem_o_codigo c i) l) as [[n r]|] eqn:Hf.
  - by rewrite (list_find_app_l _ _ _ _ _ Hf).
  - rewrite (list_find_app_r _ _ _ Hf). cbn [list_find].
    by rewrite decide_True by done.
Qed.

Section Espelho.

Variable float_de_texto : string → option flutuante.


End Espelho.

(** ** The table *)

Section Tabela_extra.

Import Tabela.

Variable str : valor → texto.

Lemma cabem_refl ls : cabem ls ls.
Proof. intros k n Hk. eauto. Qed.

Lemma cabem_trans ns ms ls : cabem ns ms → cabem ms ls → cabem ns ls.
Proof.
  intros H1 H2 k n Hk. destruct (H1 k n Hk) as (m & Hm & Hnm).
  destruct (H2 k m Hm) as (l & Hl & Hml). exists l. split; [done | lia].
Qed.

Lemma cabem_cons n ns l ls :
  cabem (n :: ns) (l :: ls) ↔ (n ≤ l)%nat ∧ cabem ns ls.
Proof.
  split.
  - intros H. split.
    + destruct (H 0%nat n eq_refl) as (l' & Hl & Hle). by simplify_eq/=.
    + intros k m Hk. apply (H (S k) m Hk).
  - intros [Hle H] [|k] m Hk; simplify_eq/=; [eauto | by apply H].
Qed.

Lemma alargar_Some i vs ls ls' :
  alargar str i vs ls = Some ls' →
  length ls' = length ls ∧ cabem ls ls' ∧
  ∀ k v, vs !! k = Some v →
         ∃ l, ls' !! (i + k)%nat = Some l ∧ (length (str v) ≤ l)%nat.
Proof.
  revert i ls. induction vs as [|v vs IH]; intros i ls H; cbn [alargar] in H.
  - simplify_eq. split_and!; [done | apply cabem_refl | done].
  - destruct (ls !! i) as [l|] eqn:Hi; [| done].
    apply IH in H as (Hlen & Hmon & Hvs).
    rewrite length_insert in Hlen.
    assert (cabem ls (<[i := l `max` length (str v)]> ls)) as Hstep.
    { intros k n Hk. destruct (decide (k = i)) as [->|Hne].
      - rewrite list_lookup_insert_eq by (by eapply lookup_lt_Some).
        simplify_eq. eexists. split; [done | lia].
      - rewrite list_lookup_insert_ne by done. eauto. }
    split_and!; [done | by eapply cabem_trans |].
    intros [|k] w Hk; simplify_eq/=.
    + destruct (Hmon i (l `max` length (str w))) as (l' & Hl' & Hle).
      { apply list_lookup_insert_eq. by eapply lookup_lt_Some. }
      exists l'. rewrite Nat.add_0_r. split; [done | lia].
    + destruct (Hvs k w Hk) as (l' & Hl' & Hle). exists l'.
      by rewrite <- Nat.add_succ_comm.
Qed.

Lemma alargar_None i vs ls :
  (i ≤ length ls)%nat →
  alargar str i vs ls = None ↔ (length ls < i + length vs)%nat.
Proof.
  revert i ls. induction vs as [|v vs IH]; intros i ls Hi; cbn [alargar].
  - split; [done | simpl; lia].
  - destruct (ls !! i) as [l|] eqn:Hl.
    + apply lookup_lt_Some in Hl. rewrite IH by (rewrite length_insert; lia).
      rewrite length_insert. simpl. lia.
    + apply lookup_ge_None in Hl. split; [simpl; lia | done].
Qed.

Lemma medir_Some dados ls ls' :
  medir str dados ls = Some ls' →
  length ls' = length ls ∧ cabem ls ls' ∧
  Forall (λ linha, cabem (length <$> (str <$> valores linha)) ls') dados.
Proof.
  revert ls. induction dados as [|linha dados IH]; intros ls H;
    cbn [medir] in H.
  - simplify_eq. split_and!; [done | apply cabem_refl | done].
  - destruct (alargar str 0 (valores linha) ls) as [ls1|] eqn:Ha; [| done].
    apply alargar_Some in Ha as (Hlen1 & Hmon1 & Hvs).
    apply IH in H as (Hlen & Hmon & Hresto).
    split_and!; [congruence | by eapply cabem_trans |].
    constructor; [| done].
    apply (cabem_trans _ ls1); [| done].
    intros k n Hk. rewrite !list_lookup_fmap in Hk.
    destruct (valores linha !! k) as [v|] eqn:Hv; simplify_eq/=.
    by apply (Hvs k v).
Qed.

Lemma medir_None dados ls :
  medir str dados ls = None ↔
  Exists (λ linha : registro, (length ls < length linha)%nat) dados.
Proof.
  revert ls. induction dados as [|linha dados IH]; intros ls; cbn [medir].
  - split; [done | by intros ?%Exists_nil].
  - rewrite Exists_cons.
    pose proof (alargar_None 0 (valores linha) ls ltac:(lia)) as Hn.
    unfold valores in Hn at 2. rewrite length_fmap in Hn.
    destruct (alargar str 0 (valores linha) ls) as [ls1|] eqn:Ha.
    + apply alargar_Some in Ha as (Hlen & _). rewrite IH, Hlen.
      split; [by right |]. intros [Hl|Hr]; [| done].
      apply Hn in Hl. done.
    + split; [| done]. intros _. left. by apply Hn.
Qed.

(** X16: the table cannot be drawn when a row is longer than the header:
    [formatar_tabela] raises [IndexError] exactly when some row of the
    data has more values than the header has columns; in every other case,
    the empty data included, it returns a text. *)
Theorem formatar_tabela_IndexError dados cabecalho :
  formatar_tabela str dados cabecalho = None ↔
  Exists (λ linha : registro, (length cabecalho < length linha)%nat) dados.
Proof.
  unfold formatar_tabela. destruct dados as [|linha dados].
  - split; [done | by intros ?%Exists_nil].
  - rewrite <- (length_fmap length cabecalho), <- medir_None.
    by destruct (medir str (linha :: dados) (length <$> cabecalho)).
Qed.

Lemma juntar_length sep sep' ps qs :
  length sep = length sep' → length <$> ps = length <$> qs →
  length (juntar sep ps) = length (juntar sep' qs).
Proof.
  intros Hsep. revert qs. induction ps as [|p ps IH]; intros [|q qs] H;
    simplify_eq/=; [done |].
  destruct ps as [|p' ps], qs as [|q' qs]; simplify_eq/=; [done |].
  rewrite !length_app.
  pose proof (IH (q' :: qs)) as IH'. simpl in IH'.
  rewrite IH' by (by rewrite H0, H1). lia.
Qed.

Lemma celulas_length (ts : list texto) ls :
  length ts = length ls → cabem (length <$> ts) ls →
  length <$> zip_with celula ts ls = (λ l, l + 2)%nat <$> ls.
Proof.
  revert ls. induction ts as [|t ts IH]; intros [|l ls] Hlen Hc;
    simplify_eq/=; [done |].
  apply cabem_cons in Hc as [Hle Hc]. rewrite IH by done. f_equal.
  rewrite !length_app, length_replicate. simpl. lia.
Qed.

Lemma linha_formatada_length (ts : list texto) ls :
  length ts = length ls → cabem (length <$> ts) ls →
  length (linha_formatada ts ls) = length (separador ls).
Proof.
  intros Hlen Hc. unfold linha_formatada, separador.
  rewrite !length_app. do 2 f_equal. apply juntar_length; [done |].
  rewrite (celulas_length _ _ Hlen Hc), <- list_fmap_compose.
  apply list_fmap_ext. intros k l _. simpl. by rewrite length_replicate.
Qed.

(** X17: the table is aligned.  When the data is not empty and every row
    has as many values as the header has columns, [formatar_tabela] returns
    the lines, joined by line feeds, of a table of which all lines have the
    same length: one line for each row, one for the header and three
    separators.  No text is cut: a column is as wide as its longest
    text. *)
Theorem formatar_tabela_alinhada dados cabecalho :
  dados ≠ [] →
  Forall (λ linha : registro, length linha = length cabecalho) dados →
  ∃ larguras linhas,
    formatar_tabela str dados cabecalho = Some (juntar [nova_linha] linhas) ∧
    length linhas = (length dados + 4)%nat ∧
    Forall (λ t, length t = length (separador larguras)) linhas ∧
    cabem (length <$> cabecalho) larguras ∧
    Forall (λ linha, cabem (length <$> (str <$> valores linha)) larguras)
           dados.
Proof.
  intros Hne Hlen.
  destruct (medir str dados (length <$> cabecalho)) as [ls|] eqn:Hm.
  2:{ apply medir_None in Hm. rewrite length_fmap in Hm.
      apply Exists_exists in Hm as (linha & Hin & Hlt).
      rewrite list.Forall_forall in Hlen. specialize (Hlen linha Hin). lia. }
  pose proof Hm as (Hls & Hcab & Hrows)%medir_Some.
  rewrite length_fmap in Hls.
  exists ls. eexists. split_and!.
  - unfold formatar_tabela. destruct dados; [done |]. by rewrite Hm.
  - rewrite !length_app, length_fmap. simpl. lia.
  - repeat (apply Forall_cons; split); [done | | done |].
    { by apply linha_formatada_length. }
    apply Forall_app. split; [| by repeat constructor].
    apply Forall_fmap. apply list.Forall_forall. intros linha Hin.
    rewrite list.Forall_forall in Hlen, Hrows. simpl.
    apply linha_formatada_length; [| by apply Hrows].
    rewrite length_fmap. unfold valores. rewrite length_fmap.
    rewrite (Hlen linha Hin). done.
  - done.
  - done.
Qed.

End Tabela_extra.

(** * The theorems at concrete inputs *)

Lemma ureia_bem_formada : Forall (λ i, bem_formado i) [ureia].
Proof. repeat constructor. Qed.

Lemma dois_bem_formados : Forall (λ i, bem_formado i) [ureia; calcario].
Proof. repeat constructor. Qed.

Lemma saida_de_90 :
  executar sem_texto (Saida (num 1) (num 90)) fora_do_ar
  = Ret (true, depois_da_saida).
Proof. vm_compute. reflexivity. Qed.

Lemma quantidade_nao_negativa_conservada_witness :
  Forall (λ i, quantidade_ok i) (insumos depois_da_saida).
Proof.
  apply (quantidade_nao_negativa_conservada sem_texto fora_do_ar).
  - constructor; [vm_compute; exact I | constructor].
  - apply (alc_passo _ _ _ fora_do_ar _ (Saida (num 1) (num 90)) true).
    + apply alc_inicio.
    + intros x Hx. unfold validar_float, num, para_float in Hx.
      rewrite float_de_90 in Hx. injection Hx as <-. eexists. reflexivity.
    + exact saida_de_90.
Defined.

Lemma codigos_distintos_conservados_witness :
  ∃ e1 e2 e3,
    executar sem_texto (Adicionar gesso) com_dois = Ret (true, e1) ∧
    executar sem_texto (Atualizar (num 1) {["nome" := VStr "Ureia 46%"]}) e1
    = Ret (true, e2) ∧
    executar sem_texto (Atualizar (num 2) {["codigo" := num 2]}) e2
    = Ret (true, e3) ∧
    codigos (insumos e3) = [Some (num 1); Some (num 2); Some (num 3)] ∧
    distintos (codigos (insumos e3)).
Proof.
  eexists _, _, _.
  split; [vm_compute; reflexivity |].
  split; [vm_compute; reflexivity |].
  split; [vm_compute; reflexivity |].
  split; [vm_compute; reflexivity |].
  apply (codigos_distintos_conservados sem_texto com_dois).
  - vm_compute. exact I.
  - eapply (alc_passo _ _ _ _ _
              (Atualizar (num 2) {["codigo" := num 2]}) true).
    + eapply (alc_passo _ _ _ _ _
                (Atualizar (num 1) {["nome" := VStr "Ureia 46%"]}) true).
      * eapply (alc_passo _ _ _ _ _ (Adicionar gesso) true).
        -- apply alc_inicio.
        -- exact I.
        -- vm_compute. reflexivity.
      * left. reflexivity.
      * vm_compute. reflexivity.
    + right. reflexivity.
    + vm_compute. reflexivity.
Defined.

Lemma sincronizar_duas_vezes_witness :
  ∃ e1 e2, _sincronizar com_dois = Ret (tt, e1) ∧
           _sincronizar e1 = Ret (tt, e2) ∧
           insumos e1 = insumos com_dois ∧
           arquivo e2 = arquivo e1 ∧ tabela e2 = tabela e1.
Proof.
  apply (sincronizar_duas_vezes com_dois).
  - constructor; [by eexists |]. constructor; [by eexists | constructor].
  - left. constructor.
Defined.




Lemma verificar_alertas_exato_witness :
  ∃ l, verificar_alertas com_dois = Ret (l, com_dois) ∧
    (∀ a, a ∈ l ↔
       ∃ i q m, i ∈ insumos com_dois ∧
         i !! "quantidade" = Some (VNum q) ∧ i !! "nivel_min" = Some (VNum m) ∧
         f_menor_igual q m ∧
         dom a = list_to_set campos_alerta ∧
         ∀ k, k ∈ campos_alerta → a !! k = i !! k).
Proof. apply (verificar_alertas_exato com_dois). exact dois_bem_formados. Defined.

Lemma verificar_alertas_na_ordem_witness :
  ∃ l, listar_insumos com_dois = Ret (l, com_dois) ∧
       verificar_alertas com_dois
       = Ret (projetar <$> filter em_alerta l, com_dois).
Proof.
  apply (verificar_alertas_na_ordem com_dois). exact dois_bem_formados.
Defined.


Lemma atualizar_insumo_mescla_witness :
  ∃ e' i', atualizar_insumo (num 1) {["nome" := VStr "Ureia 46%"]} com_ureia
           = Ret (true, e') ∧
    insumos e' !! 0%nat = Some i' ∧
    (∀ k v, ({["nome" := VStr "Ureia 46%"]} : insumo) !! k = Some v →
            i' !! k = Some v) ∧
    (∀ k, ({["nome" := VStr "Ureia 46%"]} : insumo) !! k = None →
          i' !! k = ureia !! k) ∧
    (∀ m, m ≠ 0%nat → insumos e' !! m = insumos com_ureia !! m) ∧
    length (insumos e') = length (insumos com_ureia).
Proof.
  apply (atualizar_insumo_mescla com_ureia (num 1)).
  - constructor; [by eexists | constructor].
  - reflexivity.
Defined.

Lemma adicionar_insumo_duplicado_ou_novo_witness :
  ((∃ r, r ∈ insumos com_ureia ∧ tem_o_codigo (num 1) r) →
   adicionar_insumo ureia com_ureia
   = Ret (false, recusado CodigoJaExiste com_ureia)) ∧
  ((∀ r, r ∈ insumos com_ureia → ¬ tem_o_codigo (num 1) r) →
   ∃ e', adicionar_insumo ureia com_ureia = Ret (true, e') ∧
         insumos e' = insumos com_ureia ++ [ureia]).
Proof.
  apply (adicionar_insumo_duplicado_ou_novo com_ureia ureia (num 1)).
  - constructor; [by eexists | constructor].
  - reflexivity.
Defined.

Lemma falha_sem_sincronizar_witness :
  (∃ m, terminal (recusado CodigoJaExiste com_ureia)
        = terminal com_ureia ++ [Erro m]) ∧
  insumos (recusado CodigoJaExiste com_ureia) = insumos com_ureia ∧
  arquivo (recusado CodigoJaExiste com_ureia) = arquivo com_ureia ∧
  tabela (recusado CodigoJaExiste com_ureia) = tabela com_ureia ∧
  connection (recusado CodigoJaExiste com_ureia) = connection com_ureia ∧
  falhas (recusado CodigoJaExiste com_ureia) = falhas com_ureia.
Proof.
  apply (falha_sem_sincronizar sem_texto (Adicionar ureia) com_ureia).
  vm_compute. reflexivity.
Defined.

(** * The further properties at concrete inputs *)

Lemma dois_com_codigo : Forall tem_codigo [ureia; calcario].
Proof. constructor; [by eexists |]. constructor; [by eexists | constructor]. Qed.


Lemma remover_e_buscar_witness :
  ∃ e', remover_insumo (num 1) com_dois = Ret (true, e') ∧
        Estoque.buscar_insumo (num 1) e' = Ret (None, e').
Proof.
  eexists. split; [vm_compute; reflexivity |].
  apply (remover_e_buscar com_dois (num 1)).
  - exact dois_com_codigo.
  - vm_compute. exact I.
  - vm_compute. reflexivity.
Defined.





Lemma registrar_saida_avisa_se_em_alerta_witness :
  ∃ n i' x nome u al,
    insumos depois_da_saida !! n = Some i' ∧ tem_o_codigo (num 1) i' ∧
    validar_float sem_texto (num 90) = Ret (Some x) ∧
    i' !! "nome" = Some nome ∧ i' !! "unidade" = Some u ∧
    terminal depois_da_saida =
      terminal fora_do_ar
      ++ (if serializaveis (insumos depois_da_saida) then []
          else [ErroAoSalvar])
      ++ (if em_alerta i' then [AlertaNivelMinimo nome] else [])
      ++ [SucessoSaida x u] ∧
    verificar_alertas depois_da_saida = Ret (al, depois_da_saida) ∧
    (projetar i' ∈ al ↔ em_alerta i').
Proof.
  apply (registrar_saida_avisa_se_em_alerta sem_texto fora_do_ar
           (num 1) (num 90) depois_da_saida).
  - exact ureia_bem_formada.
  - vm_compute. exact I.
  - exact saida_de_90.
Defined.

Lemma oracle_atualizar_insumo_sem_campos_witness :
  OracleGateway.atualizar_insumo (num 1) {["codigo" := num 1]} vazio
  = Ret (false, vazio).
Proof.
  apply (oracle_atualizar_insumo_sem_campos (num 1) {["codigo" := num 1]}).
  intros k Hk. unfold campos_permitidos in Hk.
  repeat (apply elem_of_cons in Hk as [->|Hk]; [reflexivity |]).
  by apply elem_of_nil in Hk.
Defined.

Lemma conexao_fechada_conservada_witness :
  connection depois_da_saida = false.
Proof.
  apply (conexao_fechada_conservada sem_texto (λ _, True) fora_do_ar).
  - reflexivity.
  - apply (alc_passo _ _ _ fora_do_ar _ (Saida (num 1) (num 90)) true).
    + apply alc_inicio.
    + exact I.
    + exact saida_de_90.
Defined.

Lemma linhas_remotas_ficam_witness :
  ∃ e', executar sem_texto (Remover (num 1)) com_linhas = Ret (true, e') ∧
        insumos e' = [] ∧
        is_Some (tabela e' !! Qc_of_Z 1).
Proof.
  eexists. split; [vm_compute; reflexivity |]. split; [reflexivity |].
  apply (linhas_remotas_ficam sem_texto (λ _, True) com_linhas).
  - apply (alc_passo _ _ _ com_linhas _ (Remover (num 1)) true).
    + apply alc_inicio.
    + exact I.
    + vm_compute. reflexivity.
  - eexists. vm_compute. reflexivity.
Defined.

Lemma sincronizar_so_toca_nos_seus_witness :
  ∃ e', _sincronizar com_linhas = Ret (tt, e') ∧
        tabela e' !! Qc_of_Z 7 = tabela com_linhas !! Qc_of_Z 7.
Proof.
  eexists. split; [vm_compute; reflexivity |].
  apply (sincronizar_so_toca_nos_seus com_linhas).
  - vm_compute. reflexivity.
  - intros i Hi. apply list_elem_of_singleton in Hi as ->.
    vm_compute. discriminate.
Defined.


Lemma storage_atualizar_insumo_resultados_witness :
  Storage_registros.atualizar_insumo (num 2) {["nome" := VStr "Cal"]} com_dois
  = Ret (true,
         com_arquivo
           (Documento [ureia; {["nome" := VStr "Cal"]} ∪ calcario]) com_dois) ∧
  Storage_registros.atualizar_insumo (num 2) {["validade" := VData 0]}
    com_dois
  = Ret (false,
         com_terminal [ErroAoSalvar] (com_arquivo Corrompido com_dois)).
Proof.
  split.
  - rewrite (storage_atualizar_insumo_resultados (num 2)
               {["nome" := VStr "Cal"]} com_dois I dois_com_codigo).
    reflexivity.
  - rewrite (storage_atualizar_insumo_resultados (num 2)
               {["validade" := VData 0]} com_dois I dois_com_codigo).
    reflexivity.
Defined.

Lemma storage_remover_e_buscar_witness :
  ∃ e', Storage_registros.remover_insumo (num 1) com_dois = Ret (true, e') ∧
        arquivo e' = Documento [calcario] ∧
        Storage_registros.buscar_insumo (num 1) e' = Ret (None, e').
Proof.
  apply (storage_remover_e_buscar (num 1) com_dois).
  - exact I.
  - exact dois_com_codigo.
  - vm_compute. exact I.
Defined.

Lemma storage_adicionar_e_buscar_witness :
  ∃ e', Storage_registros.adicionar_insumo ureia com_ureia = Ret (true, e') ∧
        arquivo e' = Documento [ureia; ureia] ∧
        Storage_registros.buscar_insumo (num 1) e' = Ret (Some ureia, e').
Proof.
  apply (storage_adicionar_e_buscar ureia (num 1) com_ureia).
  - exact I.
  - constructor; [by eexists | constructor].
  - vm_compute. exact I.
  - reflexivity.
  - vm_compute. exact I.
Defined.


Lemma formatar_tabela_alinhada_witness :
  ∃ larguras linhas,
    Tabela.formatar_tabela str_exemplo uma_linha dois_titulos
    = Some (Tabela.juntar [Tabela.nova_linha] linhas) ∧
    length linhas = (length uma_linha + 4)%nat ∧
    Forall (λ t, length t = length (Tabela.separador larguras)) linhas ∧
    cabem (length <$> dois_titulos) larguras ∧
    Forall (λ linha, cabem (length <$> (str_exemplo <$> Tabela.valores linha))
                           larguras) uma_linha.
Proof.
  apply (formatar_tabela_alinhada str_exemplo uma_linha dois_titulos).
  - discriminate.
  - repeat constructor.
Defined.
